(** * node-telnet: a shallow embedding of [lib/telnet.js]

    The development follows the layout of the source file: the command and
    option tables, the frame parser ([parse], [parseCommand], [parseOption]
    and the handler tables [COMMAND_IMPLS] / [OPTION_IMPLS]), the option sets
    ([OptionSet], [_handleOptions]), the session ([Socket], its input
    ['data'] handler and [write]) and, last, the demand gating between the
    transport and the session.

    Bytes are integers in [0, 255]; a [Buffer] is a list of bytes; the
    [Buffers] queue of the session is the list of its not yet consumed
    bytes.  JavaScript exceptions are modelled by a completion type, and the
    mutable objects of the source (the pending queue, the event under
    construction, the socket) live in the state of a small state-and-error
    monad. *)

From Stdlib Require Import ZArith List String Ascii Bool Lia.
Import ListNotations.
Open Scope string_scope.
Open Scope Z_scope.
Open Scope list_scope.

(** ** Completions and the state monad *)

(** Exceptions the code can raise: [assert] failures, calls of [undefined]
    (a table lookup that misses), the [oob] error of [Buffers.get].
    [FuelExhausted] is no JavaScript error: it marks a loop model that ran
    out of fuel, and [on_data_terminates] shows it never arises. *)
Inductive error : Type :=
| AssertionError
| TypeError
| OutOfBounds
| FuelExhausted.

Inductive completion (A : Type) : Type :=
| Return (a : A)
| Throw (e : error).
Arguments Return {A} a.
Arguments Throw {A} e.

Definition M (S A : Type) : Type := S -> completion A * S.

Definition ret {S A} (a : A) : M S A := fun s => (Return a, s).

Definition bind {S A B} (m : M S A) (k : A -> M S B) : M S B :=
  fun s =>
    match m s with
    | (Return a, s') => k a s'
    | (Throw e, s') => (Throw e, s')
    end.

Definition throw {S A} (e : error) : M S A := fun s => (Throw e, s).
Definition gets {S A} (f : S -> A) : M S A := fun s => (Return (f s), s).
Definition modify {S} (f : S -> S) : M S unit := fun s => (Return tt, f s).

(** [assert(cond)] of Node's [assert] module. *)
Definition assert {S} (cond : bool) : M S unit :=
  if cond then ret tt else throw AssertionError.

Declare Scope monad_scope.
Delimit Scope monad_scope with monad.
Notation "x <- m ;; k" := (bind m (fun x => k))
  (at level 61, m at next level, right associativity) : monad_scope.
Notation "m ;; k" := (bind m (fun _ => k))
  (at level 61, right associativity) : monad_scope.
Open Scope monad_scope.

(** ** The command and option tables *)

Definition SE   : Z := 240.
Definition NOP  : Z := 241.
Definition DM   : Z := 242.
Definition BRK  : Z := 243.
Definition IP   : Z := 244.
Definition AO   : Z := 245.
Definition AYT  : Z := 246.
Definition EC   : Z := 247.
Definition EL   : Z := 248.
Definition GA   : Z := 249.
Definition SB   : Z := 250.
Definition WILL : Z := 251.
Definition WONT : Z := 252.
Definition DO   : Z := 253.
Definition DONT : Z := 254.
Definition IAC  : Z := 255.

Definition COMMANDS : list (string * Z) :=
  [ ("SE", SE); ("NOP", NOP); ("DM", DM); ("BRK", BRK); ("IP", IP);
    ("AO", AO); ("AYT", AYT); ("EC", EC); ("EL", EL); ("GA", GA);
    ("SB", SB); ("WILL", WILL); ("WONT", WONT); ("DO", DO);
    ("DONT", DONT); ("IAC", IAC) ].

Definition TRANSMIT_BINARY       : Z := 0.
Definition ECHO                  : Z := 1.
Definition SUPPRESS_GO_AHEAD     : Z := 3.
Definition STATUS                : Z := 5.
Definition TIMING_MARK           : Z := 6.
Definition TERMINAL_TYPE         : Z := 24.
Definition WINDOW_SIZE           : Z := 31.
Definition TERMINAL_SPEED        : Z := 32.
Definition REMOTE_FLOW_CONTROL   : Z := 33.
Definition LINEMODE              : Z := 34.
Definition X_DISPLAY_LOCATION    : Z := 35.
Definition AUTHENTICATION        : Z := 37.
Definition ENVIRONMENT_VARIABLES : Z := 39.

Definition OPTIONS : list (string * Z) :=
  [ ("TRANSMIT_BINARY", TRANSMIT_BINARY); ("ECHO", ECHO);
    ("SUPPRESS_GO_AHEAD", SUPPRESS_GO_AHEAD); ("STATUS", STATUS);
    ("TIMING_MARK", TIMING_MARK); ("TERMINAL_TYPE", TERMINAL_TYPE);
    ("WINDOW_SIZE", WINDOW_SIZE); ("TERMINAL_SPEED", TERMINAL_SPEED);
    ("REMOTE_FLOW_CONTROL", REMOTE_FLOW_CONTROL); ("LINEMODE", LINEMODE);
    ("X_DISPLAY_LOCATION", X_DISPLAY_LOCATION);
    ("AUTHENTICATION", AUTHENTICATION);
    ("ENVIRONMENT_VARIABLES", ENVIRONMENT_VARIABLES) ].

(** A JavaScript object keyed by small integers: the latest assignment to a
    key is found first. *)
Fixpoint lookup {V : Type} (k : Z) (m : list (Z * V)) : option V :=
  match m with
  | [] => None
  | (k', v) :: m' => if k =? k' then Some v else lookup k m'
  end.

Definition lower_ascii (c : ascii) : ascii :=
  let n := nat_of_ascii c in
  if (andb (Nat.leb 65 n) (Nat.leb n 90)) then ascii_of_nat (n + 32) else c.

Fixpoint toLowerCase (s : string) : string :=
  match s with
  | EmptyString => EmptyString
  | String c s' => String (lower_ascii c) (toLowerCase s')
  end.

(** [name.replace(/_/g, ' ')] *)
Fixpoint underscores_to_spaces (s : string) : string :=
  match s with
  | EmptyString => EmptyString
  | String c s' =>
      String (if Ascii.eqb c "_"%char then " "%char else c)
             (underscores_to_spaces s')
  end.

(** [Object.keys(COMMANDS).reduce(function (names, name) { names[COMMANDS[name]] = name.toLowerCase(); ... }, {})] *)
Definition COMMAND_NAMES : list (Z * string) :=
  Eval cbv in
  fold_left (fun names '(name, code) => (code, toLowerCase name) :: names)
            COMMANDS [].

Definition OPTION_NAMES : list (Z * string) :=
  Eval cbv in
  fold_left (fun names '(name, code) =>
               (code, underscores_to_spaces (toLowerCase name)) :: names)
            OPTIONS [].

(** ** Buffers: the pending queue *)

Definition Buffer := list Z.
Definition Buffers := list Z.

Module Bufs.
Definition length (bufs : Buffers) : Z := Z.of_nat (List.length bufs).

(** [bufs.get(i)]: the byte at index [i]; [Buffers] throws ['oob'] outside
    of the queue. *)
Definition get (bufs : Buffers) (i : Z) : completion Z :=
  if (i <? 0) || (length bufs <=? i) then Throw OutOfBounds
  else match nth_error bufs (Z.to_nat i) with
       | Some b => Return b
       | None => Throw OutOfBounds
       end.

(** [bufs.splice(0, howMany)]: the removed bytes and what is left. *)
Definition splice0 (bufs : Buffers) (howMany : Z) : Buffer * Buffers :=
  (firstn (Z.to_nat howMany) bufs, skipn (Z.to_nat howMany) bufs).

(** [bufs.indexOf(needle)] for a one-byte needle: the index of its first
    occurrence, [-1] when there is none. *)
Fixpoint indexOf (bufs : Buffers) (needle : Z) : Z :=
  match bufs with
  | [] => -1
  | b :: bufs' =>
      if b =? needle then 0
      else let r := indexOf bufs' needle in
           if r <? 0 then -1 else r + 1
  end.

Definition push (bufs : Buffers) (b : Buffer) : Buffers := bufs ++ b.
End Bufs.

(** ** Parse events *)

(** The event object that the parser fills in.  A property that was never
    assigned is [None] ([undefined] in the source). *)
Record Event : Type := mkEvent {
  commandCode : option Z;
  command     : option string;
  optionCode  : option Z;
  option_name : option string;      (* [event.option] *)
  buf         : option Buffer;
  data        : option Buffer;
  width       : option Z;           (* also [cols] and [columns] *)
  height      : option Z            (* also [rows] *)
}.

Definition empty_event : Event :=
  mkEvent None None None None None None None None.

Definition set_command (c : Z) (e : Event) : Event :=
  mkEvent (Some c) (lookup c COMMAND_NAMES) (optionCode e) (option_name e)
          (buf e) (data e) (width e) (height e).
Definition set_option (o : Z) (e : Event) : Event :=
  mkEvent (commandCode e) (command e) (Some o) (lookup o OPTION_NAMES)
          (buf e) (data e) (width e) (height e).
Definition set_buf (b : Buffer) (e : Event) : Event :=
  mkEvent (commandCode e) (command e) (optionCode e) (option_name e)
          (Some b) (data e) (width e) (height e).
Definition set_data (d : Buffer) (e : Event) : Event :=
  mkEvent (commandCode e) (command e) (optionCode e) (option_name e)
          (buf e) (Some d) (width e) (height e).
Definition set_size (w h : option Z) (e : Event) : Event :=
  mkEvent (commandCode e) (command e) (optionCode e) (option_name e)
          (buf e) (data e) w h.

(** ** The frame parser *)

(** The parser works on two mutable objects: the pending queue and the event
    it fills in. *)
Record PState : Type := mkPState {
  p_bufs  : Buffers;
  p_event : Event
}.

(** What a handler returns: the sentinel [MORE], or the event object (whose
    contents are in the state). *)
Inductive handler_result : Type :=
| RMore
| REvent.

Definition P := M PState.

Definition bufs_length : P Z := gets (fun s => Bufs.length (p_bufs s)).

Definition bufs_get (i : Z) : P Z :=
  fun s => (Bufs.get (p_bufs s) i, s).

Definition bufs_splice0 (howMany : Z) : P Buffer :=
  fun s => let '(removed, rest) := Bufs.splice0 (p_bufs s) howMany in
           (Return removed, mkPState rest (p_event s)).

Definition update_event (f : Event -> Event) : P unit :=
  modify (fun s => mkPState (p_bufs s) (f (p_event s))).

Definition get_event : P Event := gets p_event.

(** The entries of [OPTION_IMPLS]. *)
Inductive option_impl : Type :=
| Impl_NO_ARGS
| Impl_WINDOW_SIZE.

(** [OPTION_IMPLS]: the keys that the source assigns; every other option
    code has no entry. *)
Definition OPTION_IMPLS : list (Z * option_impl) :=
  [ (ECHO, Impl_NO_ARGS); (STATUS, Impl_NO_ARGS); (LINEMODE, Impl_NO_ARGS);
    (TRANSMIT_BINARY, Impl_NO_ARGS); (AUTHENTICATION, Impl_NO_ARGS);
    (TERMINAL_SPEED, Impl_NO_ARGS); (TERMINAL_TYPE, Impl_NO_ARGS);
    (REMOTE_FLOW_CONTROL, Impl_NO_ARGS);
    (ENVIRONMENT_VARIABLES, Impl_NO_ARGS);
    (X_DISPLAY_LOCATION, Impl_NO_ARGS); (SUPPRESS_GO_AHEAD, Impl_NO_ARGS);
    (WINDOW_SIZE, Impl_WINDOW_SIZE) ].

(** [OPTION_IMPLS.NO_ARGS] *)
Definition NO_ARGS (i : Z) : P handler_result :=
  b <- bufs_splice0 i ;;
  update_event (set_buf b) ;;
  ret REvent.

(** The variables that [Binary.parse(event.buf)] reads off the frame:
    [word8] takes one byte, [word16bu] two bytes as an unsigned big-endian
    number; a read past the end leaves the variable undefined. *)
Record naws_vars : Type := mkVars {
  v_iac1 : option Z; v_sb : option Z; v_naws : option Z;
  v_width : option Z; v_height : option Z;
  v_iac2 : option Z; v_se : option Z
}.

Definition word8 (b : Buffer) (off : nat) : option Z := nth_error b off.

Definition word16bu (b : Buffer) (off : nat) : option Z :=
  match nth_error b off, nth_error b (S off) with
  | Some hi, Some lo => Some (hi * 256 + lo)
  | _, _ => None
  end.

Definition Binary_parse (b : Buffer) : naws_vars :=
  mkVars (word8 b 0) (word8 b 1) (word8 b 2)
         (word16bu b 3) (word16bu b 5)
         (word8 b 7) (word8 b 8).

(** [x === c] for a variable that may be undefined. *)
Definition strict_eq (x : option Z) (c : Z) : bool :=
  match x with
  | Some v => v =? c
  | None => false
  end.

(** [OPTION_IMPLS[OPTIONS.WINDOW_SIZE]] *)
Definition WINDOW_SIZE_impl (i : Z) : P handler_result :=
  event <- get_event ;;
  if negb (strict_eq (commandCode event) SB) then
    NO_ARGS i ;;
    ret REvent
  else
    len <- bufs_length ;;
    if len <? 9 then ret RMore
    else
      b <- bufs_splice0 9 ;;
      update_event (set_buf b) ;;
      let vars := Binary_parse b in
      assert (strict_eq (v_iac1 vars) IAC) ;;
      assert (strict_eq (v_iac2 vars) IAC) ;;
      assert (strict_eq (v_sb vars) SB) ;;
      assert (strict_eq (v_se vars) SE) ;;
      assert (strict_eq (v_naws vars) WINDOW_SIZE) ;;
      update_event (set_size (v_width vars) (v_height vars)) ;;
      ret REvent.

Definition run_option_impl (impl : option_impl) (i : Z) : P handler_result :=
  match impl with
  | Impl_NO_ARGS => NO_ARGS i
  | Impl_WINDOW_SIZE => WINDOW_SIZE_impl i
  end.

(** [parseOption]: calling a missing entry of [OPTION_IMPLS] is a call of
    [undefined], a [TypeError]. *)
Definition parseOption (i : Z) : P handler_result :=
  option <- bufs_get i ;;
  update_event (set_option option) ;;
  match lookup option OPTION_IMPLS with
  | Some impl => run_option_impl impl (i + 1)
  | None => throw TypeError
  end.

(** The entries of [COMMAND_IMPLS]. *)
Inductive command_impl : Type :=
| Impl_option            (* do, dont, will, wont, sb *)
| Impl_IAC.

Definition COMMAND_IMPLS : list (Z * command_impl) :=
  [ (DO, Impl_option); (DONT, Impl_option); (WILL, Impl_option);
    (WONT, Impl_option); (SB, Impl_option); (IAC, Impl_IAC) ].

Definition command_option (i : Z) : P handler_result :=
  len <- bufs_length ;;
  if len <? i + 1 then ret RMore
  else parseOption i.

(** [COMMAND_IMPLS[COMMANDS.IAC]] *)
Definition command_IAC (i : Z) : P handler_result :=
  b <- bufs_splice0 i ;;
  update_event (set_buf b) ;;
  update_event (set_data [255]) ;;
  ret REvent.

Definition run_command_impl (impl : command_impl) (i : Z) : P handler_result :=
  match impl with
  | Impl_option => command_option i
  | Impl_IAC => command_IAC i
  end.

Definition parseCommand (i : Z) : P handler_result :=
  command <- bufs_get i ;;
  update_event (set_command command) ;;
  match lookup command COMMAND_IMPLS with
  | Some impl => run_command_impl impl (i + 1)
  | None => throw TypeError
  end.

Definition parse_body : P handler_result :=
  len <- bufs_length ;;
  assert (2 <=? len) ;;
  b0 <- bufs_get 0 ;;
  assert (b0 =? IAC) ;;
  parseCommand 1.

(** The outcome of [parse] as its caller sees it. *)
Inductive ParseOutcome : Type :=
| MORE
| Parsed (e : Event).

(** [parse(bufs)]: runs on the queue and a fresh event object [{}]; returns
    the completion together with the queue as the call leaves it. *)
Definition parse (bufs : Buffers) : completion ParseOutcome * Buffers :=
  match parse_body (mkPState bufs empty_event) with
  | (Return RMore, s) => (Return MORE, p_bufs s)
  | (Return REvent, s) => (Return (Parsed (p_event s)), p_bufs s)
  | (Throw e, s) => (Throw e, p_bufs s)
  end.

(** ** What is handed to [output.write] *)

(** A value passed to a stream's [write]: a [Buffer], or a JavaScript
    string, kept as the sequence of its code points. *)
Inductive chunk : Type :=
| JBuffer (b : Buffer)
| JString (s : list Z).

(** A JavaScript string as a sequence of Unicode code points.  (The engine
    keeps UTF-16 code units; the only string operation of the source, the
    replacement of [\r?\n], touches the units 13 and 10 alone, which are
    never part of a surrogate pair.) *)
Definition jsstring := list Z.

Module UTF8.
Definition REPLACEMENT : Z := 65533.       (* U+FFFD *)

Definition continuation (b : Z) : bool := (128 <=? b) && (b <=? 191).
Definition between (lo hi b : Z) : bool := (lo <=? b) && (b <=? hi).

(** The range of the second byte after the lead byte [b0] of a three or
    four byte sequence (the Unicode table of well-formed sequences). *)
Definition second_lo (b0 : Z) : Z :=
  if b0 =? 224 then 160 else if b0 =? 240 then 144 else 128.
Definition second_hi (b0 : Z) : Z :=
  if b0 =? 237 then 159 else if b0 =? 244 then 143 else 191.

(** [buffer.toString('utf8')]: decoding with replacement.  A byte that
    starts no well-formed sequence, and every well-formed prefix that is cut
    short, becomes U+FFFD and decoding resumes behind it. *)
Fixpoint decode (bs : list Z) : jsstring :=
  match bs with
  | [] => []
  | b0 :: r0 =>
      if b0 <? 128 then b0 :: decode r0
      else if between 194 223 b0 then
        match r0 with
        | b1 :: r1 =>
            if continuation b1
            then ((b0 - 192) * 64 + (b1 - 128)) :: decode r1
            else REPLACEMENT :: decode r0
        | [] => [REPLACEMENT]
        end
      else if between 224 239 b0 then
        match r0 with
        | b1 :: r1 =>
            if between (second_lo b0) (second_hi b0) b1 then
              match r1 with
              | b2 :: r2 =>
                  if continuation b2
                  then ((b0 - 224) * 4096 + (b1 - 128) * 64 + (b2 - 128))
                         :: decode r2
                  else REPLACEMENT :: decode r1
              | [] => [REPLACEMENT]
              end
            else REPLACEMENT :: decode r0
        | [] => [REPLACEMENT]
        end
      else if between 240 244 b0 then
        match r0 with
        | b1 :: r1 =>
            if between (second_lo b0) (second_hi b0) b1 then
              match r1 with
              | b2 :: r2 =>
                  if continuation b2 then
                    match r2 with
                    | b3 :: r3 =>
                        if continuation b3
                        then ((b0 - 240) * 262144 + (b1 - 128) * 4096
                              + (b2 - 128) * 64 + (b3 - 128)) :: decode r3
                        else REPLACEMENT :: decode r2
                    | [] => [REPLACEMENT]
                    end
                  else REPLACEMENT :: decode r1
              | [] => [REPLACEMENT]
              end
            else REPLACEMENT :: decode r0
        | [] => [REPLACEMENT]
        end
      else REPLACEMENT :: decode r0
  end.

(** The bytes of one code point. *)
Definition encode1 (c : Z) : list Z :=
  if c <? 128 then [c]
  else if c <? 2048 then [192 + c / 64; 128 + c mod 64]
  else if c <? 65536 then
    [224 + c / 4096; 128 + (c / 64) mod 64; 128 + c mod 64]
  else [240 + c / 262144; 128 + (c / 4096) mod 64;
        128 + (c / 64) mod 64; 128 + c mod 64].

(** The bytes a stream writes for a string (its default encoding). *)
Definition encode (s : jsstring) : list Z := flat_map encode1 s.

(** Well-formed UTF-8, by the table of the Unicode standard. *)
Fixpoint well_formed (fuel : nat) (bs : list Z) : bool :=
  match fuel with
  | O => match bs with [] => true | _ => false end
  | S fuel' =>
      match bs with
      | [] => true
      | b0 :: r0 =>
          if between 0 127 b0 then well_formed fuel' r0
          else if between 194 223 b0 then
            match r0 with
            | b1 :: r1 => continuation b1 && well_formed fuel' r1
            | _ => false
            end
          else if between 224 239 b0 then
            match r0 with
            | b1 :: b2 :: r2 =>
                between (second_lo b0) (second_hi b0) b1
                && continuation b2 && well_formed fuel' r2
            | _ => false
            end
          else if between 240 244 b0 then
            match r0 with
            | b1 :: b2 :: b3 :: r3 =>
                between (second_lo b0) (second_hi b0) b1
                && continuation b2 && continuation b3
                && well_formed fuel' r3
            | _ => false
            end
          else false
      end
  end.

Definition valid (bs : list Z) : bool := well_formed (List.length bs) bs.
End UTF8.

(** [value.toString('utf8')]: a [Buffer] is decoded, a string is itself. *)
Definition toString_utf8 (c : chunk) : jsstring :=
  match c with
  | JBuffer b => UTF8.decode b
  | JString s => s
  end.

(** The bytes that go out for a chunk handed to the transport's [write]. *)
Definition wire_bytes (c : chunk) : list Z :=
  match c with
  | JBuffer b => b
  | JString s => UTF8.encode s
  end.

Definition CR : Z := 13.
Definition LF : Z := 10.

(** [s.replace(/\r?\n/g, '\r\n')]: scanning from the left, a CR LF pair and
    a LF alone are each replaced by CR LF; everything else is copied. *)
Fixpoint replace_newlines (s : list Z) : list Z :=
  match s with
  | [] => []
  | c :: r =>
      if c =? CR then
        match r with
        | d :: r' => if d =? LF then CR :: LF :: replace_newlines r'
                     else CR :: replace_newlines r
        | [] => [CR]
        end
      else if c =? LF then CR :: LF :: replace_newlines r
      else c :: replace_newlines r
  end.

(** The normalisation in the words of the specification: every newline, a
    lone LF or one that already follows a CR, ends up as CR LF.  [prev_cr]
    tells whether the byte just copied was a CR. *)
Fixpoint normalize_newlines_from (prev_cr : bool) (bs : list Z) : list Z :=
  match bs with
  | [] => []
  | b :: r =>
      if b =? LF then
        (if prev_cr then [LF] else [CR; LF]) ++ normalize_newlines_from false r
      else b :: normalize_newlines_from (b =? CR) r
  end.

Definition normalize_newlines (bs : list Z) : list Z :=
  normalize_newlines_from false bs.

(** ** The session *)

(** The argument of an emitted event: a parse event or a [Buffer]. *)
Inductive emit_arg : Type :=
| AEvent (e : Event)
| AData (d : Buffer).

(** One call of [self.emit(name, arg)]. *)
Record emission : Type := Emit {
  em_name : string;
  em_arg  : emit_arg
}.

(** The readable side of the transport, as far as the session drives it:
    [pause()] and [resume()] set and clear [t_paused]; [t_queue] holds the
    chunks that have arrived and were not yet delivered as ['data'] events. *)
Record Transport : Type := mkTransport {
  t_paused : bool;
  t_queue  : list Buffer
}.

(** The mutable state of one [Socket]: its pending queue [bufs], the
    [convertLF] flag, the input stream, the log of what was handed to
    [output.write] and the log of the events the socket emitted (both kept
    with the latest entry first, and read in order of time through
    [written], [emissions] and the functions below), and the number of
    ['data'] listeners attached to the socket. *)
Record Socket : Type := mkSocket {
  bufs           : Buffers;
  convertLF      : bool;
  input          : Transport;
  output_written : list chunk;
  emitted        : list emission;
  data_listeners : nat
}.

Definition S := M Socket.

Definition set_bufs (b : Buffers) (s : Socket) : Socket :=
  mkSocket b (convertLF s) (input s) (output_written s) (emitted s)
           (data_listeners s).
Definition set_input (t : Transport) (s : Socket) : Socket :=
  mkSocket (bufs s) (convertLF s) t (output_written s) (emitted s)
           (data_listeners s).
Definition add_written (c : chunk) (s : Socket) : Socket :=
  mkSocket (bufs s) (convertLF s) (input s) (c :: output_written s)
           (emitted s) (data_listeners s).
Definition add_emitted (e : emission) (s : Socket) : Socket :=
  mkSocket (bufs s) (convertLF s) (input s) (output_written s)
           (e :: emitted s) (data_listeners s).
Definition add_data_listener (s : Socket) : Socket :=
  mkSocket (bufs s) (convertLF s) (input s) (output_written s) (emitted s)
           (Datatypes.S (data_listeners s)).

(** [socket.output.write(c)] *)
Definition output_write (c : chunk) : S unit := modify (add_written c).

(** *** OptionSet *)

Record OptionSet : Type := mkOptionSet {
  _sendEnable     : Z;
  _sendDisable    : Z;
  _receiveEnable  : Z;
  _receiveDisable : Z
}.

(** [new OptionSet(socket, serverOpts)] *)
Definition new_OptionSet (serverOpts : bool) : OptionSet :=
  mkOptionSet (if serverOpts then WILL else DO)
              (if serverOpts then WONT else DONT)
              (if serverOpts then DO else WILL)
              (if serverOpts then DONT else WONT).

(** Truthiness of a possibly undefined string: the empty string and
    [undefined] are falsy. *)
Definition truthy (x : option string) : bool :=
  match x with
  | Some EmptyString => false
  | Some _ => true
  | None => false
  end.

(** A byte stored into a [Buffer]: an undefined value is stored as 0. *)
Definition to_byte (x : option Z) : Z :=
  match x with
  | Some v => v
  | None => 0
  end.

(** [OptionSet.prototype._handleOptions] *)
Definition _handleOptions (this : OptionSet) (event : Event) : S unit :=
  if truthy (option_name event) then
    if strict_eq (commandCode event) (_receiveDisable this) then ret tt
    else if strict_eq (commandCode event) (_receiveEnable this) then
      output_write
        (JBuffer [IAC; _sendDisable this; to_byte (optionCode event)])
    else ret tt
  else ret tt.

(** The two option sets of a socket, in the order the constructor creates
    them and registers their ['event'] listeners: local, then remote. *)
Definition options_local : OptionSet := new_OptionSet true.
Definition options_remote : OptionSet := new_OptionSet false.

(** What the ['event'] listeners of the option sets do with an argument; a
    [Buffer] has no [option] property. *)
Definition option_listeners (arg : emit_arg) : S unit :=
  match arg with
  | AEvent e => _handleOptions options_local e ;;
                _handleOptions options_remote e
  | AData _ => ret tt
  end.

(** [self.emit(name, arg)]: the call is logged, and the listeners that the
    constructor registered for ['event'] run. *)
Definition emit (name : string) (arg : emit_arg) : S unit :=
  modify (add_emitted (Emit name arg)) ;;
  if String.eqb name "event" then option_listeners arg else ret tt.

(** An event name read off a property that may be undefined. *)
Definition name_of (x : option string) : string :=
  match x with
  | Some n => n
  | None => "undefined"
  end.

(** *** The input ['data'] handler *)

(** The value of the variable [i] when the loop is left. *)
Inductive loop_var : Type :=
| I_index (i : Z)
| I_MORE.

Definition socket_splice0 (howMany : Z) : S Buffer :=
  fun s => let '(removed, rest) := Bufs.splice0 (bufs s) howMany in
           (Return removed, set_bufs rest s).

Definition socket_parse : S ParseOutcome :=
  fun s => let '(r, rest) := parse (bufs s) in (r, set_bufs rest s).

(** What the handler does with a parsed event. *)
Definition dispatch (i : Event) : S unit :=
  emit "event" (AEvent i) ;;
  emit (name_of (command i)) (AEvent i) ;;
  (if truthy (option_name i) then emit (name_of (option_name i)) (AEvent i)
   else ret tt) ;;
  match data i with
  | Some d => emit "data" (AData d)
  | None => ret tt
  end.

(** [while ((i = bufs.indexOf(IAC_BUF)) >= 0) { ... }] *)
Fixpoint data_loop (fuel : nat) : S loop_var :=
  match fuel with
  | O => throw FuelExhausted
  | Datatypes.S fuel' =>
      i <- gets (fun s => Bufs.indexOf (bufs s) IAC) ;;
      if 0 <=? i then
        len <- gets (fun s => Bufs.length (bufs s)) ;;
        assert (i + 1 <? len) ;;
        (if 0 <? i then
           d <- socket_splice0 i ;;
           emit "data" (AData d)
         else ret tt) ;;
        r <- socket_parse ;;
        match r with
        | MORE => ret I_MORE
        | Parsed e => dispatch e ;; data_loop fuel'
        end
      else ret (I_index i)
  end.

(** [this.input.on('data', function (b) { ... })] *)
Definition on_data (b : Buffer) : S unit :=
  modify (fun s => set_bufs (Bufs.push (bufs s) b) s) ;;
  n <- gets (fun s => List.length (bufs s)) ;;
  i <- data_loop (Datatypes.S n) ;;
  len <- gets (fun s => Bufs.length (bufs s)) ;;
  match i with
  | I_MORE => ret tt
  | I_index _ =>
      if 0 <? len then
        d <- socket_splice0 len ;;
        emit "data" (AData d)
      else ret tt
  end.

(** *** Construction, listeners and the transport *)

Definition input_pause : S unit :=
  modify (fun s => set_input (mkTransport true (t_queue (input s))) s).
Definition input_resume : S unit :=
  modify (fun s => set_input (mkTransport false (t_queue (input s))) s).

(** [new Socket(input, output)] for the input stream [input0]: nothing
    buffered, [convertLF] set, no listener yet, and [this.input.pause()]. *)
Definition Socket_constructor (input0 : Transport) : Socket :=
  snd (input_pause (mkSocket [] true input0 [] [] 0)).

(** The socket of a fresh connection, whose input flows and holds nothing
    when the constructor is called. *)
Definition new_Socket : Socket :=
  Eval cbv in Socket_constructor (mkTransport false []).

(** [socket.on(event, listener)]: the ['newListener'] handler of the
    constructor runs first, then the listener is added. *)
Definition on (event : string) : S unit :=
  (if String.eqb event "data" then input_resume else ret tt) ;;
  if String.eqb event "data" then modify add_data_listener else ret tt.

(** [socket.write(b)]: [Socket.prototype.write] called with its one
    parameter [b] and no further argument, so that [arguments] is the
    one-element list of [b].  The function is not in strict mode: the
    assignment to the parameter [b] is an assignment to [arguments[0]], and
    [this.output.write.apply(this.output, arguments)] is the call
    [output.write(b)] with the value that [b] has by then.  (A call with
    more arguments hands them all to [output.write]; what the transport does
    with an encoding or a callback is not in this file, and such calls are
    not modelled.) *)
Definition write (b : chunk) : S unit :=
  convert <- gets convertLF ;;
  let b :=
    if convert then JString (replace_newlines (toString_utf8 b)) else b in
  let arguments := [b] in
  match arguments with
  | c :: _ => output_write c
  | [] => throw TypeError
  end.

(** *** The environment of a session *)

(** What can happen to a session: a chunk arrives at the transport, the
    application attaches a listener, or the transport, when it is not
    paused, delivers the oldest chunk it holds to the ['data'] handler. *)
Inductive action : Type :=
| Arrive (b : Buffer)
| Attach (event : string)
| Deliver.

Definition arrive (b : Buffer) : S unit :=
  modify (fun s =>
            set_input (mkTransport (t_paused (input s))
                                   (t_queue (input s) ++ [b])) s).

Definition deliver : S unit :=
  t <- gets input ;;
  if t_paused t then ret tt
  else match t_queue t with
       | [] => ret tt
       | b :: q =>
           modify (set_input (mkTransport (t_paused t) q)) ;;
           on_data b
       end.

Definition step (a : action) : S unit :=
  match a with
  | Arrive b => arrive b
  | Attach event => on event
  | Deliver => deliver
  end.

(** A run of actions; an exception of a handler ends the run. *)
Fixpoint run (tr : list action) : S unit :=
  match tr with
  | [] => ret tt
  | a :: tr' => step a ;; run tr'
  end.

(** The chunks handed to [output.write], and the events emitted, in order
    of time. *)
Definition written (s : Socket) : list chunk := rev (output_written s).
Definition emissions (s : Socket) : list emission := rev (emitted s).

(** The payloads of the ['data'] events, in order of time. *)
Definition data_events (s : Socket) : list Buffer :=
  flat_map (fun e => if String.eqb (em_name e) "data"
                     then match em_arg e with
                          | AData d => [d]
                          | AEvent _ => []
                          end
                     else [])
           (emissions s).

Definition events_named (name : string) (s : Socket) : list emit_arg :=
  map em_arg (filter (fun e => String.eqb (em_name e) name) (emissions s)).

(** All bytes handed to the output, in order of time. *)
Definition outbound_bytes (s : Socket) : list Z :=
  flat_map wire_bytes (written s).

(** ** Abbreviations used in the statements *)

(** The event of a three-byte frame [IAC c o]. *)
Definition negotiation_event (c o : Z) : Event :=
  set_buf [IAC; c; o] (set_option o (set_command c empty_event)).

(** The event of a doubled [IAC]. *)
Definition iac_event : Event :=
  set_data [255] (set_buf [IAC; IAC] (set_command IAC empty_event)).

(** The event of a window-size subnegotiation read off [frame]. *)
Definition resize_event (frame : Buffer) (w h : Z) : Event :=
  set_size (Some w) (Some h)
           (set_buf frame (set_option WINDOW_SIZE (set_command SB empty_event))).

(** The nine bytes of a window-size subnegotiation for [w] columns and [h]
    rows, both sent as unsigned 16-bit big-endian numbers. *)
Definition window_size_frame (w h : Z) : Buffer :=
  [IAC; SB; WINDOW_SIZE; w / 256; w mod 256; h / 256; h mod 256; IAC; SE].

(** The three broadcasts of an event that carries an option. *)
Definition broadcast (e : Event) : list emission :=
  [ Emit "event" (AEvent e); Emit (name_of (command e)) (AEvent e);
    Emit (name_of (option_name e)) (AEvent e) ].

Definition iac_free (l : list Z) : bool :=
  forallb (fun b => negb (b =? IAC)) l.

(** The chunks that arrive in a run, in order. *)
Definition arrivals (tr : list action) : list Buffer :=
  flat_map (fun a => match a with
                     | Arrive b => [b]
                     | _ => []
                     end) tr.

(** The socket [s] after [w] more chunks were written and [em] more events
    emitted, both listed in order of time. *)
Definition grow (s : Socket) (w : list chunk) (em : list emission) : Socket :=
  mkSocket (bufs s) (convertLF s) (input s) (rev w ++ output_written s)
           (rev em ++ emitted s) (data_listeners s).

(** The socket after one more ['data'] event for the bytes [d], if there are
    any. *)
Definition after_data (d : Buffer) (s : Socket) : Socket :=
  match d with
  | [] => s
  | _ :: _ => grow s [] [Emit "data" (AData d)]
  end.

(** What the two option sets of a session write when the frame [IAC c o]
    arrives: the refusal of an enable request, nothing otherwise. *)
Definition replies (c o : Z) : list chunk :=
  if c =? DO then [JBuffer [IAC; WONT; o]]
  else if c =? WILL then [JBuffer [IAC; DONT; o]]
  else [].


(** The option codes that [parseOption] can decode. *)
Definition has_decoder (o : Z) : bool :=
  match lookup o OPTION_IMPLS with
  | Some _ => true
  | None => false
  end.

(** The four negotiation commands. *)
Definition negotiation_command (c : Z) : bool :=
  (c =? DO) || (c =? DONT) || (c =? WILL) || (c =? WONT).

(** ** The command builder *)

Definition upper_ascii (c : ascii) : ascii :=
  let n := nat_of_ascii c in
  if (andb (Nat.leb 97 n) (Nat.leb n 122)) then ascii_of_nat (n - 32) else c.

Definition is_ascii (c : ascii) : bool := Nat.ltb (nat_of_ascii c) 128.

(** [String.prototype.toUpperCase] on a string of ASCII characters, where it
    takes the letters a to z to A to Z and keeps every other character.
    Outside ASCII the method follows the case mapping of Unicode (which
    takes U+0131 and U+017F to the ASCII letters I and S, for one); that
    mapping is not part of this development, and a string that holds such a
    character has no image here. *)
Fixpoint toUpperCase (s : string) : option string :=
  match s with
  | EmptyString => Some EmptyString
  | String c s' =>
      if is_ascii c
      then option_map (String (upper_ascii c)) (toUpperCase s')
      else None
  end.

(** A JavaScript object read at a string key. *)
Fixpoint lookup_name {V : Type} (k : string) (m : list (string * V)) : option V :=
  match m with
  | [] => None
  | (k', v) :: m' => if String.eqb k k' then Some v else lookup_name k m'
  end.

(** [new Command(command, client)]: [this.command] is the code of the
    command, undefined for a name that [COMMANDS] does not have.  The object
    is defined here for the names of ASCII characters, as [toUpperCase] is. *)
Record Command : Type := mkCommand {
  this_command : option Z
}.

Definition new_Command (command : string) : option Command :=
  option_map (fun upper => mkCommand (lookup_name upper COMMANDS))
             (toUpperCase command).

(** The methods that [Object.keys(OPTIONS).forEach] puts on
    [Command.prototype]: one for each option, under its lower-case name, with
    the code it closes over. *)
Definition Command_prototype : list (string * Z) :=
  Eval cbv in
  fold_left (fun methods '(name, code) => (toLowerCase name, code) :: methods)
            OPTIONS [].

(** The body of each of these methods: it fills a three-byte [Buffer] with
    [IAC], the command and the option code, and hands it to
    [client.output.write]. *)
Definition Command_method (this : Command) (code : Z) : S unit :=
  output_write (JBuffer [IAC; to_byte (this_command this); code]).

(** The call [cmd.method()] for a method name of the table; any other name
    is not a method that this file defines. *)
Definition Command_call (this : Command) (method : string) : option (S unit) :=
  option_map (Command_method this) (lookup_name method Command_prototype).

(** ** More abbreviations *)

(** One turn of the handler's loop, with what follows a dispatched event as
    a parameter. *)
Definition loop_body (again : S loop_var) : S loop_var :=
  i <- gets (fun s => Bufs.indexOf (bufs s) IAC) ;;
  if 0 <=? i then
    len <- gets (fun s => Bufs.length (bufs s)) ;;
    assert (i + 1 <? len) ;;
    (if 0 <? i then
       d <- socket_splice0 i ;;
       emit "data" (AData d)
     else ret tt) ;;
    r <- socket_parse ;;
    match r with
    | MORE => ret I_MORE
    | Parsed e => dispatch e ;; again
    end
  else ret (I_index i).


(** Data as it travels: every byte 255 doubled. *)
Definition escape_iac (l : list Z) : list Z :=
  flat_map (fun b => if b =? IAC then [IAC; IAC] else [b]) l.

(** All that the ['data'] handler does to a socket: it replaces the queue
    and it emits events. *)
Inductive evolves (s : Socket) : Socket -> Prop :=
| evolves_refl : evolves s s
| evolves_bufs b s' : evolves s s' -> evolves s (set_bufs b s')
| evolves_emit name arg s' : evolves s s' -> evolves s (snd (emit name arg s')).

(** The payloads of the ['data'] events among [em], in order. *)
Definition data_of (em : list emission) : list Buffer :=
  flat_map (fun e => if String.eqb (em_name e) "data"
                     then match em_arg e with
                          | AData d => [d]
                          | AEvent _ => []
                          end
                     else [])
           em.

(** The chunks [cs] handed to the ['data'] handler one after the other. *)
Fixpoint feed (cs : list Buffer) : S unit :=
  match cs with
  | [] => ret tt
  | c :: cs' => on_data c ;; feed cs'
  end.

(** A refusal: [IAC WONT o] or [IAC DONT o], in a [Buffer]. *)
Definition is_refusal (c : chunk) : bool :=
  match c with
  | JBuffer [b0; b1; _] => (b0 =? IAC) && ((b1 =? WONT) || (b1 =? DONT))
  | _ => false
  end.

(** No line feed without a carriage return right before it. *)
Fixpoint no_lone_lf (prev_cr : bool) (l : list Z) : bool :=
  match l with
  | [] => true
  | b :: r => (if b =? LF then prev_cr else true) && no_lone_lf (b =? CR) r
  end.

(** * Properties *)

(** ** Evaluating the monadic code *)

Lemma length_cons b l : Bufs.length (b :: l) = 1 + Bufs.length l.
Proof. unfold Bufs.length. cbn [List.length]. lia. Qed.

Lemma length_nil : Bufs.length [] = 0.
Proof. reflexivity. Qed.

Lemma length_nonneg l : 0 <= Bufs.length l.
Proof. unfold Bufs.length. lia. Qed.

Lemma length_app l1 l2 : Bufs.length (l1 ++ l2) = Bufs.length l1 + Bufs.length l2.
Proof. unfold Bufs.length. rewrite List.length_app. lia. Qed.

#[local] Arguments Bufs.length : simpl never.
#[local] Arguments lookup : simpl never.
#[local] Arguments Z.add : simpl never.

Ltac case_cmp :=
  match goal with
  | |- context [Z.ltb ?a ?b] => destruct (Z.ltb_spec a b); try lia
  | |- context [Z.leb ?a ?b] => destruct (Z.leb_spec a b); try lia
  | |- context [Z.eqb ?a ?b] =>
      destruct (Z.eqb_spec a b); try (exfalso; lia); try (exfalso; congruence)
  end.

Ltac norm_nat :=
  repeat match goal with
         | |- context [Pos.to_nat ?p] =>
             let n := eval compute in (Pos.to_nat p) in
             change (Pos.to_nat p) with n
         end.

Ltac closed_lookup :=
  match goal with
  | |- context [lookup ?k ?t] =>
      let v := eval compute in (lookup k t) in
      lazymatch v with
      | Some _ => change (lookup k t) with v
      | None => change (lookup k t) with v
      end
  end.

Ltac known_lookup :=
  match goal with
  | H : lookup _ _ = _ |- _ => rewrite H
  end.

Ltac parser_unfold :=
  cbv beta delta
    [parse parse_body parseCommand parseOption command_option command_IAC
     run_command_impl run_option_impl NO_ARGS WINDOW_SIZE_impl
     bufs_length bufs_get bufs_splice0 update_event get_event
     bind ret throw gets modify assert Bufs.get Bufs.splice0];
  change (1 + 1 + 1) with 3; change (1 + 1) with 2.

Ltac run_steps :=
  repeat first
    [ progress cbn
    | progress norm_nat
    | progress rewrite ?length_cons, ?length_nil
    | known_lookup
    | closed_lookup
    | case_cmp ].

Ltac parser_run := parser_unfold; run_steps.

(** ** The parser on each shape of frame *)

Lemma parse_too_short b :
  Bufs.length b < 2 -> parse b = (Throw AssertionError, b).
Proof.
  intros H. destruct b as [|b0 [|b1 rest]].
  - reflexivity.
  - parser_run. reflexivity.
  - pose proof (length_nonneg rest). rewrite !length_cons in H. lia.
Qed.

Lemma parse_iac_iac rest :
  parse (IAC :: IAC :: rest) = (Return (Parsed iac_event), rest).
Proof. pose proof (length_nonneg rest). parser_run. reflexivity. Qed.

Lemma parse_unknown_command c rest :
  lookup c COMMAND_IMPLS = None ->
  parse (IAC :: c :: rest) = (Throw TypeError, IAC :: c :: rest).
Proof. intros H. pose proof (length_nonneg rest). parser_run. reflexivity. Qed.

Lemma parse_option_more c :
  lookup c COMMAND_IMPLS = Some Impl_option ->
  parse [IAC; c] = (Return MORE, [IAC; c]).
Proof. intros H. parser_run. reflexivity. Qed.

Lemma parse_unknown_option c o rest :
  lookup c COMMAND_IMPLS = Some Impl_option ->
  lookup o OPTION_IMPLS = None ->
  parse (IAC :: c :: o :: rest) = (Throw TypeError, IAC :: c :: o :: rest).
Proof.
  intros Hc Ho. pose proof (length_nonneg rest). parser_run. reflexivity.
Qed.

Lemma parse_no_args c o rest :
  lookup c COMMAND_IMPLS = Some Impl_option ->
  lookup o OPTION_IMPLS = Some Impl_NO_ARGS ->
  parse (IAC :: c :: o :: rest) = (Return (Parsed (negotiation_event c o)), rest).
Proof.
  intros Hc Ho. pose proof (length_nonneg rest). parser_run. reflexivity.
Qed.

Lemma parse_window_size_other c o rest :
  lookup c COMMAND_IMPLS = Some Impl_option ->
  lookup o OPTION_IMPLS = Some Impl_WINDOW_SIZE ->
  c <> SB ->
  parse (IAC :: c :: o :: rest) = (Return (Parsed (negotiation_event c o)), rest).
Proof.
  intros Hc Ho Hsb. pose proof (length_nonneg rest). parser_run. reflexivity.
Qed.

Lemma parse_window_size_more o rest :
  lookup o OPTION_IMPLS = Some Impl_WINDOW_SIZE ->
  Bufs.length rest < 6 ->
  parse (IAC :: SB :: o :: rest) = (Return MORE, IAC :: SB :: o :: rest).
Proof.
  intros Ho Hlen. pose proof (length_nonneg rest). parser_run. reflexivity.
Qed.

Lemma parse_window_size_frame o w1 w0 h1 h0 b7 b8 rest :
  lookup o OPTION_IMPLS = Some Impl_WINDOW_SIZE ->
  parse (IAC :: SB :: o :: w1 :: w0 :: h1 :: h0 :: b7 :: b8 :: rest) =
  if (b7 =? IAC) && (b8 =? SE) && (o =? WINDOW_SIZE) then
    (Return (Parsed (set_size (Some (w1 * 256 + w0)) (Some (h1 * 256 + h0))
                       (set_buf [IAC; SB; o; w1; w0; h1; h0; b7; b8]
                          (set_option o (set_command SB empty_event))))),
     rest)
  else (Throw AssertionError, rest).
Proof.
  intros Ho. pose proof (length_nonneg rest). parser_run; reflexivity.
Qed.

Lemma decoder_is_window_size o :
  lookup o OPTION_IMPLS = Some Impl_WINDOW_SIZE -> o = WINDOW_SIZE.
Proof.
  unfold lookup, OPTION_IMPLS. intros H.
  repeat match type of H with
         | (if ?a =? ?b then _ else _) = _ =>
             destruct (Z.eqb_spec a b); [try discriminate H|]
         end; try discriminate H. assumption.
Qed.
Lemma parse_not_iac b0 b1 rest :
  b0 <> IAC -> parse (b0 :: b1 :: rest) = (Throw AssertionError, b0 :: b1 :: rest).
Proof.
  intros H. pose proof (length_nonneg rest). parser_run.
  reflexivity.
Qed.

Lemma command_is_iac c :
  lookup c COMMAND_IMPLS = Some Impl_IAC -> c = IAC.
Proof.
  unfold lookup, COMMAND_IMPLS. intros H.
  repeat match type of H with
         | (if ?a =? ?b then _ else _) = _ =>
             destruct (Z.eqb_spec a b); [try discriminate H|]
         end; try discriminate H. assumption.
Qed.

(** What one call of [parse] does to the queue, whatever it holds. *)
Lemma parse_effect b :
  match parse b with
  | (Return MORE, b') => b' = b
  | (Return (Parsed e), b') =>
      exists consumed,
        buf e = Some consumed /\ b = consumed ++ b' /\ 2 <= Bufs.length consumed
  | (Throw AssertionError, b') => b' = b \/ b = firstn 9 b ++ b'
  | (Throw TypeError, b') => b' = b
  | (Throw _, _) => False
  end.
Proof.
  destruct b as [|b0 [|c rest]];
    try (rewrite parse_too_short by (rewrite ?length_cons, ?length_nil; lia);
         left; reflexivity).
  destruct (Z.eq_dec b0 IAC) as [->|Hb0];
    [|rewrite parse_not_iac by assumption; left; reflexivity].
  destruct (lookup c COMMAND_IMPLS) as [[|]|] eqn:Hc.
  - destruct rest as [|o rest]; [rewrite parse_option_more by assumption; reflexivity|].
    destruct (lookup o OPTION_IMPLS) as [[|]|] eqn:Ho.
    + rewrite parse_no_args by assumption.
      exists [IAC; c; o]. repeat split. rewrite !length_cons, length_nil. lia.
    + destruct (Z.eq_dec c SB) as [->|Hsb].
      * destruct rest as [|w1 [|w0 [|h1 [|h0 [|b7 [|b8 rest]]]]]];
          try (rewrite parse_window_size_more
                by (try assumption; rewrite ?length_cons, ?length_nil; lia);
               reflexivity).
        rewrite parse_window_size_frame by assumption.
        destruct ((b7 =? IAC) && (b8 =? SE) && (o =? WINDOW_SIZE)).
        -- eexists. repeat split. rewrite !length_cons. pose proof (length_nonneg (@nil Z)).
           rewrite length_nil. lia.
        -- right. reflexivity.
      * rewrite parse_window_size_other by assumption.
        exists [IAC; c; o]. repeat split. rewrite !length_cons, length_nil. lia.
    + rewrite parse_unknown_option by assumption. reflexivity.
  - apply command_is_iac in Hc. subst c. rewrite parse_iac_iac.
    exists [IAC; IAC]. repeat split. rewrite !length_cons, length_nil. lia.
  - rewrite parse_unknown_command by assumption. reflexivity.
Qed.
#[local] Arguments parse : simpl never.

Lemma grow_nil s : grow s [] [] = s.
Proof. destruct s. reflexivity. Qed.

Lemma grow_grow s w em w' em' :
  grow (grow s w em) w' em' = grow s (w ++ w') (em ++ em').
Proof.
  unfold grow. cbn [bufs convertLF input output_written emitted data_listeners].
  rewrite !rev_app_distr, !app_assoc. reflexivity.
Qed.

Lemma grow_set_bufs s b w em :
  grow (set_bufs b s) w em = set_bufs b (grow s w em).
Proof. reflexivity. Qed.

Lemma set_bufs_same s : set_bufs (bufs s) s = s.
Proof. destruct s. reflexivity. Qed.

Lemma written_grow s w em : written (grow s w em) = written s ++ w.
Proof.
  unfold written, grow. cbn [output_written].
  rewrite rev_app_distr, rev_involutive. reflexivity.
Qed.

Lemma emissions_grow s w em : emissions (grow s w em) = emissions s ++ em.
Proof.
  unfold emissions, grow. cbn [emitted].
  rewrite rev_app_distr, rev_involutive. reflexivity.
Qed.

Lemma handle_run this e s :
  exists w, _handleOptions this e s = (Return tt, grow s w []).
Proof.
  unfold _handleOptions.
  destruct (truthy (option_name e)); [|exists []; rewrite grow_nil; reflexivity].
  destruct (strict_eq (commandCode e) (_receiveDisable this));
    [exists []; rewrite grow_nil; reflexivity|].
  destruct (strict_eq (commandCode e) (_receiveEnable this));
    [|exists []; rewrite grow_nil; reflexivity].
  eexists [_]. reflexivity.
Qed.

Lemma emit_run name arg s :
  exists w, emit name arg s = (Return tt, grow s w [Emit name arg]).
Proof.
  unfold emit, bind, modify.
  change (add_emitted (Emit name arg) s) with (grow s [] [Emit name arg]).
  destruct (String.eqb name "event"); [|exists []; reflexivity].
  destruct arg as [e|d]; unfold option_listeners, bind; [|exists []; reflexivity].
  match goal with
  | |- context [_handleOptions ?o ?e ?s] =>
      destruct (handle_run o e s) as [w1 ->]
  end.
  match goal with
  | |- context [_handleOptions ?o ?e ?s] =>
      destruct (handle_run o e s) as [w2 ->]
  end.
  exists (w1 ++ w2). rewrite !grow_grow. reflexivity.
Qed.

Ltac emit_step :=
  match goal with
  | |- context [emit ?n ?a ?s] =>
      let w := fresh "w" in
      destruct (emit_run n a s) as [w ->]; rewrite ?grow_grow
  end.

Lemma dispatch_run e s :
  exists w em, dispatch e s = (Return tt, grow s w em).
Proof.
  unfold dispatch, bind. emit_step. emit_step.
  destruct (truthy (option_name e)); [emit_step|unfold ret at 1];
    (destruct (data e) as [d|]; [emit_step|unfold ret]); eauto.
Qed.

Lemma indexOf_range l x : -1 <= Bufs.indexOf l x < Bufs.length l.
Proof.
  induction l as [|b l IH]; cbn [Bufs.indexOf].
  - rewrite length_nil. lia.
  - rewrite length_cons. destruct (b =? x); [pose proof (length_nonneg l); lia|].
    destruct (Z.ltb_spec (Bufs.indexOf l x) 0); lia.
Qed.

Lemma length_firstn_skipn (l : list Z) n :
  (n <= List.length l)%nat ->
  List.length (skipn n l) = (List.length l - n)%nat.
Proof. intros. rewrite List.length_skipn. reflexivity. Qed.

(** One call of [parse] that produces an event shortens the queue. *)
Lemma parse_consumes b e b' :
  parse b = (Return (Parsed e), b') ->
  (List.length b' + 2 <= List.length b)%nat.
Proof.
  intros H. pose proof (parse_effect b) as P. rewrite H in P.
  destruct P as (consumed & _ & -> & Hlen).
  rewrite List.length_app. unfold Bufs.length in Hlen. lia.
Qed.

Lemma parse_never_out_of_fuel b : fst (parse b) <> Throw FuelExhausted.
Proof.
  pose proof (parse_effect b) as P.
  destruct (parse b) as [[r|[]] b']; cbn; try discriminate. contradiction.
Qed.

(** The loop of the handler: with fuel above the length of the queue it
    never runs out of fuel, and all it changes is the queue and the logs. *)
Lemma data_loop_spec fuel :
  forall s, (List.length (bufs s) < fuel)%nat ->
  exists r b' w em,
    data_loop fuel s = (r, set_bufs b' (grow s w em))
    /\ r <> Throw FuelExhausted.
Proof.
  induction fuel as [|fuel IH]; intros s Hlt; [lia|].
  cbn [data_loop]. unfold bind at 1. unfold gets at 1.
  destruct (Z.leb_spec 0 (Bufs.indexOf (bufs s) IAC)) as [Hi|Hi].
  2:{ exists (Return (I_index (Bufs.indexOf (bufs s) IAC))), (bufs s), [], [].
      rewrite grow_nil, set_bufs_same. split; [reflexivity|discriminate]. }
  unfold bind at 1. unfold gets at 1. unfold bind at 1.
  destruct (Z.ltb_spec (Bufs.indexOf (bufs s) IAC + 1) (Bufs.length (bufs s))) as [Hl|Hl].
  2:{ exists (Throw AssertionError), (bufs s), [], [].
      rewrite grow_nil, set_bufs_same. split; [reflexivity|discriminate]. }
  cbn [assert ret]. unfold bind at 1.
  set (i := Bufs.indexOf (bufs s) IAC) in *.
  assert (Hflush : exists b1 w1 em1,
             (if 0 <? i then d <- socket_splice0 i;; emit "data" (AData d) else ret tt) s
             = (Return tt, set_bufs b1 (grow s w1 em1))
             /\ (List.length b1 <= List.length (bufs s))%nat).
  { destruct (0 <? i).
    - unfold bind, socket_splice0, Bufs.splice0.
      match goal with |- context [emit ?n ?a ?s] => destruct (emit_run n a s) as [w1 ->] end.
      exists (skipn (Z.to_nat i) (bufs s)), w1, [Emit "data" (AData (firstn (Z.to_nat i) (bufs s)))].
      split; [reflexivity|]. rewrite List.length_skipn. lia.
    - exists (bufs s), [], []. rewrite grow_nil, set_bufs_same. split; [reflexivity|lia]. }
  destruct Hflush as (b1 & w1 & em1 & -> & Hb1).
  unfold bind at 1. unfold socket_parse at 1. cbn [bufs set_bufs].
  destruct (parse b1) as [[[|e]|err] b2] eqn:Hp.
  - exists (Return I_MORE), b2, w1, em1. split; [reflexivity|discriminate].
  - unfold bind at 1.
    match goal with |- context [dispatch ?e ?s] => destruct (dispatch_run e s) as (w2 & em2 & ->) end.
    apply parse_consumes in Hp.
    match goal with |- context [data_loop fuel ?s] => destruct (IH s) as (r & b3 & w3 & em3 & -> & Hr) end.
    { cbn. lia. }
    exists r, b3, ((w1 ++ w2) ++ w3), ((em1 ++ em2) ++ em3). split; [|assumption].
    rewrite <- !grow_set_bufs, !grow_grow, <- !app_assoc. reflexivity.
  - exists (Throw err), b2, w1, em1. split; [reflexivity|].
    pose proof (parse_never_out_of_fuel b1) as N. rewrite Hp in N.
    intros E. apply N. cbn. inversion E. reflexivity.
Qed.

Lemma on_data_spec b s :
  exists r b' w em,
    on_data b s = (r, set_bufs b' (grow s w em)) /\ r <> Throw FuelExhausted.
Proof.
  unfold on_data. unfold bind at 1. unfold modify at 1. unfold bind at 1. unfold gets at 1.
  unfold bind at 1.
  match goal with |- context [data_loop ?f ?s] => destruct (data_loop_spec f s) as (r & b1 & w1 & em1 & -> & Hr) end.
  { cbn. lia. }
  destruct r as [i|err].
  2:{ exists (Throw err), b1, w1, em1. split; [reflexivity|].
      intros E. apply Hr. inversion E. reflexivity. }
  unfold bind at 1. unfold gets at 1. cbn [bufs set_bufs grow].
  destruct i as [i|].
  2:{ exists (Return tt), b1, w1, em1. split; [reflexivity|discriminate]. }
  destruct (0 <? Bufs.length b1).
  - unfold bind, socket_splice0, Bufs.splice0.
    match goal with |- context [emit ?n ?a ?s] => destruct (emit_run n a s) as [w2 ->] end.
    exists (Return tt), (skipn (Z.to_nat (Bufs.length b1)) b1), (w1 ++ w2),
      (em1 ++ [Emit "data" (AData (firstn (Z.to_nat (Bufs.length b1)) b1))]).
    split; [|discriminate].
    rewrite <- !grow_set_bufs, !grow_grow, <- ?app_assoc. reflexivity.
  - exists (Return tt), b1, w1, em1. split; [reflexivity|discriminate].
Qed.

(** The handler always comes back: the fuel of the loop model suffices. *)
Lemma on_data_terminates b s : fst (on_data b s) <> Throw FuelExhausted.
Proof.
  destruct (on_data_spec b s) as (r & b' & w & em & -> & Hr). exact Hr.
Qed.
(** ** Enumerating the tables *)

Lemma has_decoder_cases o :
  has_decoder o = true ->
  In o [ECHO; STATUS; LINEMODE; TRANSMIT_BINARY; AUTHENTICATION;
        TERMINAL_SPEED; TERMINAL_TYPE; REMOTE_FLOW_CONTROL;
        ENVIRONMENT_VARIABLES; X_DISPLAY_LOCATION; SUPPRESS_GO_AHEAD;
        WINDOW_SIZE].
Proof.
  cbv [has_decoder lookup OPTION_IMPLS].
  repeat match goal with
         | |- context [if ?a =? ?b then _ else _] =>
             destruct (Z.eqb_spec a b) as [->|_]; [intros _; cbn [In]; tauto|]
         end.
  intros H. discriminate H.
Qed.

Lemma negotiation_command_cases c :
  negotiation_command c = true -> c = DO \/ c = DONT \/ c = WILL \/ c = WONT.
Proof.
  unfold negotiation_command. rewrite !orb_true_iff, !Z.eqb_eq. tauto.
Qed.

Ltac each_decoder H :=
  apply has_decoder_cases in H; cbn [In] in H;
  repeat (destruct H as [ <- | H ]); [ .. | contradiction H ].

Ltac each_command H :=
  apply negotiation_command_cases in H;
  destruct H as [ -> | [ -> | [ -> | -> ] ] ].

Ltac empty_queue s H :=
  destruct s as [? ? ? ? ? ?]; cbn [bufs] in H; subst.

Lemma events_named_grow name s w em :
  events_named name (grow s w em) =
  events_named name s
  ++ map em_arg (filter (fun e => String.eqb (em_name e) name) em).
Proof.
  unfold events_named. rewrite emissions_grow, filter_app, map_app. reflexivity.
Qed.

Lemma data_events_grow s w em :
  data_events (grow s w em) =
  data_events s ++ data_events (mkSocket [] true (mkTransport true []) [] (rev em) 0).
Proof.
  unfold data_events. rewrite emissions_grow, flat_map_app.
  unfold emissions at 3. cbn [emitted]. rewrite rev_involutive. reflexivity.
Qed.

Lemma outbound_bytes_grow s w em :
  outbound_bytes (grow s w em) = outbound_bytes s ++ flat_map wire_bytes w.
Proof.
  unfold outbound_bytes. rewrite written_grow, flat_map_app. reflexivity.
Qed.

(** ** Default refusal *)

(** An option set answers an enable request for a named option with the
    disable command of its side; the request of the other side, and every
    event whose option has no name, is passed over. *)
Lemma handle_enable_request this e name s :
  option_name e = Some name -> name <> EmptyString ->
  commandCode e = Some (_receiveEnable this) ->
  _receiveEnable this <> _receiveDisable this ->
  _handleOptions this e s =
  (Return tt,
   grow s [JBuffer [IAC; _sendDisable this; to_byte (optionCode e)]] []).
Proof.
  intros Hn Hne Hc Hd. unfold _handleOptions. rewrite Hn, Hc.
  destruct name; [contradiction Hne; reflexivity|]. cbn [truthy strict_eq].
  rewrite Z.eqb_refl. destruct (Z.eqb_spec (_receiveEnable this) (_receiveDisable this));
    [contradiction|reflexivity].
Qed.

Lemma handle_unnamed_option this e s :
  option_name e = None -> _handleOptions this e s = (Return tt, s).
Proof. intros H. unfold _handleOptions. rewrite H. reflexivity. Qed.

(** C1 (as amended).  For every option code that [parseOption] can decode,
    a session with nothing pending that receives [IAC DO o] hands exactly the
    three bytes [IAC WONT o] to the output, and one that receives
    [IAC WILL o] hands it exactly [IAC DONT o]; the event is broadcast and
    nothing stays pending.  In particular [IAC DO 31 IAC WILL 31] delivered
    to a new session produces the outbound bytes [IAC WONT 31 IAC DONT 31],
    in that order. *)
Theorem default_refusal (o : Z) (s : Socket)
  (Ho : has_decoder o = true) (Hs : bufs s = []) :
  on_data [IAC; DO; o] s =
    (Return tt, grow s [JBuffer [IAC; WONT; o]]
                       (broadcast (negotiation_event DO o)))
  /\ on_data [IAC; WILL; o] s =
    (Return tt, grow s [JBuffer [IAC; DONT; o]]
                       (broadcast (negotiation_event WILL o)))
  /\ written (snd (on_data [IAC; DO; 31; IAC; WILL; 31] new_Socket)) =
     [JBuffer [IAC; WONT; 31]; JBuffer [IAC; DONT; 31]]
  /\ outbound_bytes (snd (on_data [IAC; DO; 31; IAC; WILL; 31] new_Socket)) =
     [IAC; WONT; 31; IAC; DONT; 31].
Proof.
  empty_queue s Hs.
  each_decoder Ho; repeat split; vm_compute; reflexivity.
Qed.

Lemma default_refusal_witness :
  on_data [IAC; DO; WINDOW_SIZE] new_Socket =
  (Return tt, grow new_Socket [JBuffer [IAC; WONT; WINDOW_SIZE]]
                (broadcast (negotiation_event DO WINDOW_SIZE))).
Proof.
  exact (proj1 (default_refusal WINDOW_SIZE new_Socket eq_refl eq_refl)).
Defined.

(** C1 as stated fails for an option code without decoder: for option 2 the
    session writes nothing (the parser throws before any event exists), and
    the option set on its own would not answer an event for it either. *)
Lemma default_refusal_not_for_every_option :
  has_decoder 2 = false
  /\ fst (on_data [IAC; DO; 2] new_Socket) = Throw TypeError
  /\ outbound_bytes (snd (on_data [IAC; DO; 2] new_Socket)) <> [IAC; WONT; 2]
  /\ _handleOptions options_local (negotiation_event DO 2) new_Socket =
     (Return tt, new_Socket).
Proof. repeat split; vm_compute; discriminate. Qed.

(** ** What the parser does to the queue *)

Lemma parse_more_untouched b :
  fst (parse b) = Return MORE -> snd (parse b) = b.
Proof.
  pose proof (parse_effect b) as P.
  destruct (parse b) as [[[|e]|err] b']; cbn; intros H; try discriminate H.
  exact P.
Qed.

(** ** Options without decoder *)

(** C4 (the code at the failing input).  TIMING_MARK has a name in
    [OPTIONS] and no entry in [OPTION_IMPLS]: parsing [IAC DO 6] throws a
    [TypeError], the queue keeps the three bytes, no event is emitted and
    nothing is written. *)
Theorem unknown_option_throws :
  lookup TIMING_MARK OPTION_NAMES = Some "timing mark"
  /\ lookup TIMING_MARK OPTION_IMPLS = None
  /\ parse [IAC; DO; TIMING_MARK] = (Throw TypeError, [IAC; DO; TIMING_MARK])
  /\ on_data [IAC; DO; TIMING_MARK] new_Socket =
     (Throw TypeError, set_bufs [IAC; DO; TIMING_MARK] new_Socket).
Proof. repeat split. Qed.

(** ** Frames split over two deliveries *)

(** C5 (as amended).  For a negotiation frame [IAC c o] whose option has a
    decoder, delivered to a session with nothing pending as [IAC c] followed
    by [o]: the first delivery is suspended and leaves exactly [IAC c]
    pending, with nothing emitted or written; the two deliveries together
    have the same outcome as the delivery of all three bytes at once, which
    emits exactly one ['event'] (and writes the refusal when the frame is an
    enable request).  A parse that returns [MORE] always leaves
    the queue as it was. *)
Theorem split_after_command (c o : Z) (s : Socket)
  (Hc : negotiation_command c = true) (Ho : has_decoder o = true)
  (Hs : bufs s = []) :
  on_data [IAC; c] s = (Return tt, set_bufs [IAC; c] s)
  /\ (on_data [IAC; c] ;; on_data [o]) s = on_data [IAC; c; o] s
  /\ on_data [IAC; c; o] s =
     (Return tt, grow s (replies c o) (broadcast (negotiation_event c o)))
  /\ events_named "event" (snd (on_data [IAC; c; o] s)) =
     events_named "event" s ++ [AEvent (negotiation_event c o)]
  /\ (forall b, fst (parse b) = Return MORE -> snd (parse b) = b).
Proof.
  empty_queue s Hs.
  split; [each_command Hc; reflexivity|].
  split; [each_command Hc; each_decoder Ho; vm_compute; reflexivity|].
  split; [|split; [|exact parse_more_untouched]].
  - each_command Hc; each_decoder Ho; vm_compute; reflexivity.
  - assert (E : on_data [IAC; c; o]
                  (mkSocket [] convertLF0 input0 output_written0 emitted0
                            data_listeners0) =
                (Return tt,
                 grow (mkSocket [] convertLF0 input0 output_written0 emitted0
                                data_listeners0)
                      (replies c o) (broadcast (negotiation_event c o)))).
    { each_command Hc; each_decoder Ho; vm_compute; reflexivity. }
    rewrite E. cbn [snd]. rewrite events_named_grow.
    f_equal. each_command Hc; each_decoder Ho; reflexivity.
Qed.

Lemma split_after_command_witness :
  (on_data [IAC; DO] ;; on_data [WINDOW_SIZE]) new_Socket =
  on_data [IAC; DO; WINDOW_SIZE] new_Socket.
Proof.
  exact (proj1 (proj2 (split_after_command DO WINDOW_SIZE new_Socket
                         eq_refl eq_refl eq_refl))).
Defined.

(** C5 as stated fails for the other way to split the frame: [IAC] alone,
    then [DO 31].  The first delivery fails its assertion, and no event is
    ever emitted, whereas the three bytes delivered at once emit one. *)
Lemma split_after_iac_differs :
  fst (on_data [IAC] new_Socket) = Throw AssertionError
  /\ fst ((on_data [IAC] ;; on_data [DO; WINDOW_SIZE]) new_Socket) =
     Throw AssertionError
  /\ events_named "event"
       (snd ((on_data [IAC] ;; on_data [DO; WINDOW_SIZE]) new_Socket)) = []
  /\ events_named "event" (snd (on_data [IAC; DO; WINDOW_SIZE] new_Socket)) =
     [AEvent (negotiation_event DO WINDOW_SIZE)].
Proof. repeat split. Qed.

(** ** Window size *)

Lemma on_data_window_size w1 w0 h1 h0 s :
  bufs s = [] ->
  on_data [IAC; SB; WINDOW_SIZE; w1; w0; h1; h0; IAC; SE] s =
  (Return tt,
   grow s [] (broadcast
                (resize_event [IAC; SB; WINDOW_SIZE; w1; w0; h1; h0; IAC; SE]
                              (w1 * 256 + w0) (h1 * 256 + h0)))).
Proof. intros Hs. empty_queue s Hs. vm_compute. reflexivity. Qed.

Lemma window_size_impl_more i b e :
  strict_eq (commandCode e) SB = true ->
  Bufs.length b < 9 ->
  WINDOW_SIZE_impl i (mkPState b e) = (Return RMore, mkPState b e).
Proof.
  intros He Hb. unfold WINDOW_SIZE_impl, bind, get_event, bufs_length, gets.
  cbn [p_event]. rewrite He. cbn [negb].
  change (p_bufs (mkPState b e)) with b.
  destruct (Z.ltb_spec (Bufs.length b) 9); [reflexivity|lia].
Qed.

Lemma big_endian w : w / 256 * 256 + w mod 256 = w.
Proof. pose proof (Z.div_mod w 256). lia. Qed.

(** C7.  For all [w] and [h] in [0, 65535], the nine bytes
    [IAC SB 31 w-hi w-lo h-hi h-lo IAC SE] delivered to a session with nothing
    pending produce exactly one subnegotiation event, broadcast as ['event'],
    ['sb'] and ['window size'], whose width is [w] and whose height is [h];
    the frame takes exactly nine bytes off the queue, and with fewer than
    nine bytes buffered the decoder returns [MORE] and leaves the queue as it
    was.  No ['data'] event is emitted and nothing is written. *)
Theorem window_size_decode (w h : Z)
  (Hw : 0 <= w < 65536) (Hh : 0 <= h < 65536) :
  let frame := window_size_frame w h in
  let ev := resize_event frame w h in
  (forall s, on_data frame (set_bufs [] s) =
             (Return tt, grow (set_bufs [] s) [] (broadcast ev)))
  /\ broadcast ev = [Emit "event" (AEvent ev); Emit "sb" (AEvent ev);
                     Emit "window size" (AEvent ev)]
  /\ events_named "sb" (snd (on_data frame new_Socket)) = [AEvent ev]
  /\ data_events (snd (on_data frame new_Socket)) = []
  /\ written (snd (on_data frame new_Socket)) = []
  /\ commandCode ev = Some SB /\ optionCode ev = Some WINDOW_SIZE
  /\ width ev = Some w /\ height ev = Some h /\ buf ev = Some frame
  /\ List.length frame = 9%nat
  /\ Forall (fun b => 0 <= b < 256) frame
  /\ (forall rest, parse (frame ++ rest) = (Return (Parsed ev), rest))
  /\ (forall n, (2 <= n < 9)%nat ->
        parse (firstn n frame) = (Return MORE, firstn n frame))
  /\ (forall i b e, strict_eq (commandCode e) SB = true ->
        Bufs.length b < 9 ->
        WINDOW_SIZE_impl i (mkPState b e) = (Return RMore, mkPState b e)).
Proof.
  intros frame ev. subst frame ev. unfold window_size_frame.
  split.
  { intros s. rewrite on_data_window_size by reflexivity.
    rewrite !big_endian. reflexivity. }
  split; [reflexivity|].
  assert (Hframe : on_data [IAC; SB; WINDOW_SIZE; w / 256; w mod 256; h / 256;
                       h mod 256; IAC; SE] new_Socket =
              (Return tt,
               grow new_Socket []
                 (broadcast
                    (resize_event [IAC; SB; WINDOW_SIZE; w / 256; w mod 256;
                                   h / 256; h mod 256; IAC; SE] w h)))).
  { rewrite on_data_window_size by reflexivity. rewrite !big_endian. reflexivity. }
  rewrite Hframe. do 3 (split; [reflexivity|]). do 6 (split; [reflexivity|]).
  split.
  { pose proof (Z.mod_pos_bound w 256). pose proof (Z.mod_pos_bound h 256).
    assert (0 <= w / 256 < 256) by (split; [apply Z.div_pos|apply Z.div_lt_upper_bound]; lia).
    assert (0 <= h / 256 < 256) by (split; [apply Z.div_pos|apply Z.div_lt_upper_bound]; lia).
    repeat constructor; unfold IAC, SB, SE, WINDOW_SIZE; lia. }
  split.
  { intros rest. cbn [app]. rewrite parse_window_size_frame by reflexivity.
    cbn [andb Z.eqb IAC SE WINDOW_SIZE Pos.eqb]. rewrite !big_endian. reflexivity. }
  split.
  { intros n Hn.
    assert (E : (n = 2 \/ n = 3 \/ n = 4 \/ n = 5 \/ n = 6 \/ n = 7 \/ n = 8)%nat)
      by lia.
    repeat (destruct E as [ -> | E ]); try subst n; cbn [firstn];
      first [ apply parse_option_more; reflexivity
            | apply parse_window_size_more;
                [reflexivity | rewrite ?length_cons, ?length_nil; lia] ]. }
  exact window_size_impl_more.
Qed.

Lemma window_size_decode_witness :
  on_data [IAC; SB; 31; 0; 80; 0; 24; IAC; SE] new_Socket =
  (Return tt,
   grow new_Socket []
        (broadcast (resize_event [IAC; SB; 31; 0; 80; 0; 24; IAC; SE] 80 24))).
Proof.
  exact (proj1 (window_size_decode 80 24 ltac:(lia) ltac:(lia)) new_Socket).
Defined.

(** ** The handler, step by step *)

Lemma indexOf_literal d : iac_free d = true -> Bufs.indexOf d IAC = -1.
Proof.
  induction d as [|b d IH]; [reflexivity|].
  cbn [iac_free forallb Bufs.indexOf]. rewrite andb_true_iff, negb_true_iff.
  intros [Hb Hd]. rewrite Hb. fold (iac_free d) in Hd. rewrite (IH Hd). reflexivity.
Qed.

Lemma indexOf_app_iac d r :
  iac_free d = true -> Bufs.indexOf (d ++ IAC :: r) IAC = Bufs.length d.
Proof.
  induction d as [|b d IH]; [reflexivity|].
  cbn [iac_free forallb Bufs.indexOf app]. rewrite andb_true_iff, negb_true_iff.
  intros [Hb Hd]. rewrite Hb. fold (iac_free d) in Hd. rewrite (IH Hd).
  rewrite length_cons. pose proof (length_nonneg d).
  destruct (Z.ltb_spec (Bufs.length d) 0); lia.
Qed.

Lemma splice0_app d r :
  Bufs.splice0 (d ++ r) (Bufs.length d) = (d, r).
Proof.
  unfold Bufs.splice0, Bufs.length. rewrite Nat2Z.id.
  rewrite firstn_app, skipn_app, Nat.sub_diag, firstn_all, skipn_all.
  cbn [firstn skipn]. rewrite app_nil_r. reflexivity.
Qed.

Lemma emit_data d s :
  emit "data" (AData d) s = (Return tt, grow s [] [Emit "data" (AData d)]).
Proof. reflexivity. Qed.

Lemma data_loop_lone_iac fuel s :
  0 <= Bufs.indexOf (bufs s) IAC ->
  Bufs.indexOf (bufs s) IAC + 1 = Bufs.length (bufs s) ->
  data_loop (Datatypes.S fuel) s = (Throw AssertionError, s).
Proof.
  intros Hi Hl. cbn [data_loop]. unfold bind at 1. unfold gets at 1.
  destruct (Z.leb_spec 0 (Bufs.indexOf (bufs s) IAC)); [|lia].
  unfold bind at 1. unfold gets at 1. unfold bind at 1.
  destruct (Z.ltb_spec (Bufs.indexOf (bufs s) IAC + 1) (Bufs.length (bufs s)));
    [lia|reflexivity].
Qed.

Lemma data_loop_literal fuel s :
  iac_free (bufs s) = true ->
  data_loop (Datatypes.S fuel) s = (Return (I_index (-1)), s).
Proof.
  intros H. cbn [data_loop]. unfold bind at 1. unfold gets at 1.
  rewrite (indexOf_literal _ H). reflexivity.
Qed.

(** One turn of the loop on a queue that holds literal bytes [d] and then a
    frame of two bytes or more. *)
Lemma data_loop_frame fuel s d c rest :
  bufs s = d ++ IAC :: c :: rest -> iac_free d = true ->
  data_loop (Datatypes.S fuel) s =
  let s1 := after_data d s in
  match parse (IAC :: c :: rest) with
  | (Return MORE, b') => (Return I_MORE, set_bufs b' s1)
  | (Return (Parsed e), b') => (dispatch e ;; data_loop fuel) (set_bufs b' s1)
  | (Throw err, b') => (Throw err, set_bufs b' s1)
  end.
Proof.
  intros Hb Hd. cbn [data_loop]. unfold bind at 1. unfold gets at 1.
  rewrite Hb, (indexOf_app_iac d (c :: rest) Hd).
  pose proof (length_nonneg d). pose proof (length_nonneg rest).
  destruct (Z.leb_spec 0 (Bufs.length d)); [|lia].
  unfold bind at 1. unfold gets at 1. unfold bind at 1.
  rewrite Hb, length_app, !length_cons.
  destruct (Z.ltb_spec (Bufs.length d + 1) (Bufs.length d + (1 + (1 + Bufs.length rest))));
    [|lia].
  cbn [assert ret]. unfold bind at 1.
  destruct d as [|d0 d].
  - rewrite length_nil. cbn [Z.ltb Z.compare ret app after_data].
    unfold bind at 1. unfold socket_parse. rewrite Hb. cbn [app].
    destruct (parse (IAC :: c :: rest)) as [[[|e]|err] b']; reflexivity.
  - destruct (Z.ltb_spec 0 (Bufs.length (d0 :: d))) as [_|Hn];
      [|rewrite length_cons in Hn; pose proof (length_nonneg d); lia].
    unfold bind at 1. unfold socket_splice0 at 1. rewrite Hb, splice0_app.
    rewrite emit_data. unfold bind at 1. unfold socket_parse.
    cbn [bufs set_bufs grow after_data].
    destruct (parse (IAC :: c :: rest)) as [[[|e]|err] b']; reflexivity.
Qed.

Lemma on_data_eq b s :
  on_data b s =
  match data_loop (Datatypes.S (List.length (bufs s ++ b)))
                  (set_bufs (bufs s ++ b) s) with
  | (Return I_MORE, s1) => (Return tt, s1)
  | (Return (I_index _), s1) =>
      (Return tt, after_data (bufs s1) (set_bufs [] s1))
  | (Throw e, s1) => (Throw e, s1)
  end.
Proof.
  unfold on_data. unfold bind at 1. unfold modify at 1.
  unfold bind at 1. unfold gets at 1. unfold bind at 1.
  unfold Bufs.push. cbn [bufs set_bufs].
  destruct (data_loop (Datatypes.S (List.length (bufs s ++ b)))
                      (set_bufs (bufs s ++ b) s)) as [[[i|]|err] s1];
    try reflexivity.
  unfold bind at 1. unfold gets at 1.
  cbv beta. destruct (bufs s1) as [|b0 b1] eqn:Hb1.
  - assert (E : set_bufs [] s1 = s1) by (rewrite <- Hb1; apply set_bufs_same).
    cbn [after_data]. rewrite E. reflexivity.
  - destruct (Z.ltb_spec 0 (Bufs.length (b0 :: b1)));
      [|rewrite length_cons in *; pose proof (length_nonneg b1); lia].
    unfold bind at 1. unfold socket_splice0. rewrite Hb1.
    pose proof (splice0_app (b0 :: b1) []) as E. rewrite app_nil_r in E. rewrite E.
    rewrite emit_data. reflexivity.
Qed.

(** Literal bytes come out as one ['data'] event. *)
Lemma on_data_literal b s :
  bufs s = [] -> iac_free b = true ->
  on_data b s = (Return tt, after_data b s).
Proof.
  intros Hs Hb. rewrite on_data_eq, Hs. cbn [app].
  rewrite data_loop_literal by exact Hb. cbn [bufs set_bufs].
  destruct s; cbn [bufs] in Hs; subst. destruct b; reflexivity.
Qed.

Lemma dispatch_iac s :
  dispatch iac_event s =
  (Return tt, grow s [] [Emit "event" (AEvent iac_event);
                         Emit "iac" (AEvent iac_event);
                         Emit "data" (AData [255])]).
Proof. destruct s. reflexivity. Qed.

Lemma concat_data_after d s :
  List.concat (data_events (after_data d s)) = List.concat (data_events s) ++ d.
Proof.
  destruct d as [|d0 d]; cbn [after_data]; [rewrite app_nil_r; reflexivity|].
  rewrite data_events_grow, List.concat_app. cbn. rewrite app_nil_r. reflexivity.
Qed.

(** ** The parser, the caller and the queue *)

(** C3 (as amended).  When the outcome of [parse] is [MORE] the queue is
    left as it was.  When an event is produced, the parser itself has
    removed the consumed bytes from the front of the queue: they are the
    event's [buf], they are not empty, and the queue keeps exactly the bytes
    behind them.  This holds for every queue, in particular for those that
    start with [IAC] and hold two bytes or more.  The caller, the ['data']
    handler, removes no byte of a frame.  In a turn of its loop on a queue
    that holds literal bytes [d] and then [IAC] with a byte behind it, it
    takes off and emits exactly [d], calls [parse] on the queue from the
    [IAC] on, and goes on, or stops on [MORE] or on an exception, with the
    queue as [parse] left it.  When the queue and the chunk delivered hold no
    [IAC], it takes off all the bytes and emits them as data. *)
Theorem parse_buffer_effect
  (b : Buffers) (d : Buffer) (c : Z) (tl : list Z) (fuel : nat) (s : Socket)
  (Hd : iac_free d = true) (Hs : bufs s = d ++ IAC :: c :: tl) :
  (fst (parse b) = Return MORE -> snd (parse b) = b)
  /\ (forall e, fst (parse b) = Return (Parsed e) ->
        exists consumed,
          buf e = Some consumed /\ consumed <> []
          /\ b = consumed ++ snd (parse b))
  /\ data_loop (Datatypes.S fuel) s =
     (let s1 := after_data d s in
      match parse (IAC :: c :: tl) with
      | (Return MORE, b') => (Return I_MORE, set_bufs b' s1)
      | (Return (Parsed e), b') =>
          (dispatch e ;; data_loop fuel) (set_bufs b' s1)
      | (Throw err, b') => (Throw err, set_bufs b' s1)
      end)
  /\ (forall delivered s0,
        iac_free (bufs s0 ++ delivered) = true ->
        on_data delivered s0 =
        (Return tt, after_data (bufs s0 ++ delivered) (set_bufs [] s0))).
Proof.
  split; [apply parse_more_untouched|].
  split.
  { intros e H. pose proof (parse_effect b) as P.
    destruct (parse b) as [[[|e']|err] b']; cbn in *; try discriminate H.
    injection H as ->. destruct P as (consumed & Hbuf & Hb & Hlen).
    exists consumed. repeat split; try assumption.
    intros ->. rewrite length_nil in Hlen. lia. }
  split; [exact (data_loop_frame fuel s d c tl Hs Hd)|].
  intros delivered s0 H. rewrite on_data_eq.
  rewrite (data_loop_literal _ (set_bufs (bufs s0 ++ delivered) s0)) by exact H.
  reflexivity.
Qed.

Lemma parse_buffer_effect_witness :
  snd (parse [IAC; DO]) = [IAC; DO]
  /\ (exists consumed,
        buf (negotiation_event DO WINDOW_SIZE) = Some consumed
        /\ consumed <> []
        /\ [IAC; DO; WINDOW_SIZE; 104; 105] =
           consumed ++ snd (parse [IAC; DO; WINDOW_SIZE; 104; 105]))
  /\ data_loop 3 (set_bufs [104; IAC; DO] new_Socket) =
     (Return I_MORE,
      set_bufs [IAC; DO] (after_data [104] (set_bufs [104; IAC; DO] new_Socket))).
Proof.
  split; [|split].
  - exact (proj1 (parse_buffer_effect [IAC; DO] [104] DO [] 2
                    (set_bufs [104; IAC; DO] new_Socket) eq_refl eq_refl)
                 eq_refl).
  - exact (proj1 (proj2 (parse_buffer_effect [IAC; DO; WINDOW_SIZE; 104; 105]
                           [104] DO [] 2
                           (set_bufs [104; IAC; DO] new_Socket)
                           eq_refl eq_refl))
                 (negotiation_event DO WINDOW_SIZE) eq_refl).
  - exact (proj1 (proj2 (proj2 (parse_buffer_effect [IAC; DO] [104] DO [] 2
                                  (set_bufs [104; IAC; DO] new_Socket)
                                  eq_refl eq_refl)))).
Defined.

(** C3 as stated fails: on a complete frame [parse] itself splices the
    frame off the queue. *)
Lemma parse_mutates_buffer :
  2 <= Bufs.length [IAC; DO; WINDOW_SIZE]
  /\ nth_error [IAC; DO; WINDOW_SIZE] 0 = Some IAC
  /\ snd (parse [IAC; DO; WINDOW_SIZE]) <> [IAC; DO; WINDOW_SIZE].
Proof. repeat split; vm_compute; discriminate. Qed.

(** ** The doubled IAC *)

(** C8.  A queue that starts with [IAC IAC] parses to an event whose [data]
    is the single byte 255 and whose [buf] is the two bytes consumed; the
    session emits that byte as one ['data'] event, after the ['event'] and
    ['iac'] broadcasts.  Between literal bytes [pre] and [post] the receiver
    observes [pre], the byte 255 and [post], in this order. *)
Theorem doubled_iac_escape (pre post : Buffer) (s : Socket)
  (Hpre : iac_free pre = true) (Hpost : iac_free post = true)
  (Hs : bufs s = []) :
  (forall rest, parse (IAC :: IAC :: rest) = (Return (Parsed iac_event), rest))
  /\ data iac_event = Some [255] /\ buf iac_event = Some [IAC; IAC]
  /\ on_data [IAC; IAC] s =
     (Return tt, grow s [] [Emit "event" (AEvent iac_event);
                            Emit "iac" (AEvent iac_event);
                            Emit "data" (AData [255])])
  /\ data_events (snd (on_data [IAC; IAC] s)) = data_events s ++ [[255]]
  /\ on_data (pre ++ IAC :: IAC :: post) s =
     (Return tt,
      after_data post
        (grow (after_data pre s) [] [Emit "event" (AEvent iac_event);
                                     Emit "iac" (AEvent iac_event);
                                     Emit "data" (AData [255])]))
  /\ List.concat (data_events (snd (on_data (pre ++ IAC :: IAC :: post) s))) =
     List.concat (data_events s) ++ pre ++ [255] ++ post.
Proof.
  assert (General :
    on_data (pre ++ IAC :: IAC :: post) s =
    (Return tt,
     after_data post
       (grow (after_data pre s) [] [Emit "event" (AEvent iac_event);
                                    Emit "iac" (AEvent iac_event);
                                    Emit "data" (AData [255])]))).
  { rewrite on_data_eq, Hs. cbn [app].
    rewrite (data_loop_frame _ _ pre IAC post) by (assumption || reflexivity).
    rewrite parse_iac_iac. cbv zeta. unfold bind at 1. rewrite dispatch_iac.
    rewrite List.length_app. cbn [List.length]. rewrite Nat.add_succ_r.
    rewrite data_loop_literal by exact Hpost.
    cbn [bufs set_bufs grow]. f_equal.
    destruct s; cbn [bufs] in Hs; subst. destruct pre, post; reflexivity. }
  split; [exact parse_iac_iac|]. do 2 (split; [reflexivity|]).
  assert (Two : on_data [IAC; IAC] s =
     (Return tt, grow s [] [Emit "event" (AEvent iac_event);
                            Emit "iac" (AEvent iac_event);
                            Emit "data" (AData [255])])).
  { destruct s; cbn [bufs] in Hs; subst. reflexivity. }
  split; [exact Two|]. split.
  { rewrite Two. cbn [snd]. rewrite data_events_grow. reflexivity. }
  split; [exact General|].
  rewrite General. cbn [snd].
  rewrite concat_data_after, data_events_grow, List.concat_app, concat_data_after.
  cbn. rewrite <- !app_assoc. reflexivity.
Qed.

Lemma doubled_iac_escape_witness :
  on_data [97; IAC; IAC; 98] new_Socket =
  (Return tt,
   after_data [98]
     (grow (after_data [97] new_Socket) []
           [Emit "event" (AEvent iac_event); Emit "iac" (AEvent iac_event);
            Emit "data" (AData [255])])).
Proof.
  exact (proj1 (proj2 (proj2 (proj2 (proj2 (proj2
           (doubled_iac_escape [97] [98] new_Socket eq_refl eq_refl eq_refl))))))).
Defined.

(** ** Assertions of the window-size decoder *)

(** C9.  On a queue of nine bytes or more and an event whose command is
    [SB], the window-size decoder fails an assertion exactly when one of the
    markers is wrong: byte 0 is not [IAC], byte 1 is not [SB], byte 2 is not
    31, byte 7 is not [IAC] or byte 8 is not [SE].  With all five markers in
    place it returns the event, with width and height read as big-endian
    numbers.  Reached through [parse], where the first three bytes have
    already selected the decoder, the assertion fails exactly when byte 7 is
    not [IAC] or byte 8 is not [SE]. *)
Theorem window_size_assertions
  (b0 b1 b2 w1 w0 h1 h0 b7 b8 i : Z) (rest : Buffers) (e : Event)
  (He : commandCode e = Some SB) :
  let q := b0 :: b1 :: b2 :: w1 :: w0 :: h1 :: h0 :: b7 :: b8 :: rest in
  (fst (WINDOW_SIZE_impl i (mkPState q e)) = Throw AssertionError
   <-> (b0 <> IAC \/ b1 <> SB \/ b2 <> WINDOW_SIZE \/ b7 <> IAC \/ b8 <> SE))
  /\ (b0 = IAC -> b1 = SB -> b2 = WINDOW_SIZE -> b7 = IAC -> b8 = SE ->
      WINDOW_SIZE_impl i (mkPState q e) =
      (Return REvent,
       mkPState rest
         (set_size (Some (w1 * 256 + w0)) (Some (h1 * 256 + h0))
            (set_buf [b0; b1; b2; w1; w0; h1; h0; b7; b8] e))))
  /\ (fst (parse (IAC :: SB :: WINDOW_SIZE :: w1 :: w0 :: h1 :: h0 :: b7 :: b8
                     :: rest)) = Throw AssertionError
      <-> (b7 <> IAC \/ b8 <> SE)).
Proof.
  intros q. subst q. pose proof (length_nonneg rest) as Hr.
  rewrite <- and_assoc. split.
  2:{ rewrite parse_window_size_frame by reflexivity.
      destruct (Z.eqb_spec b7 IAC), (Z.eqb_spec b8 SE); cbn; split;
        try tauto; try discriminate; reflexivity. }
  unfold WINDOW_SIZE_impl, bind, get_event, bufs_length, gets.
  cbn [p_event]. rewrite He. cbn [strict_eq negb SB Z.eqb Pos.eqb].
  change (p_bufs (mkPState ?b e)) with b.
  rewrite !length_cons.
  destruct (Z.ltb_spec (1 + (1 + (1 + (1 + (1 + (1 + (1 + (1 + (1 + Bufs.length rest))))))))) 9);
    [lia|].
  unfold bufs_splice0, Bufs.splice0, update_event, modify, assert, ret, throw.
  change (Z.to_nat 9) with 9%nat.
  cbn [firstn skipn p_bufs p_event
       Binary_parse word8 word16bu nth_error v_iac1 v_iac2 v_sb v_se v_naws
       v_width v_height strict_eq].
  destruct (Z.eqb_spec b0 IAC); cbn [fst];
    [|split; [split; [tauto|reflexivity]|intros; contradiction]].
  destruct (Z.eqb_spec b7 IAC); cbn [fst];
    [|split; [split; [tauto|reflexivity]|intros; contradiction]].
  destruct (Z.eqb_spec b1 SB); cbn [fst];
    [|split; [split; [tauto|reflexivity]|intros; contradiction]].
  destruct (Z.eqb_spec b8 SE); cbn [fst];
    [|split; [split; [tauto|reflexivity]|intros; contradiction]].
  destruct (Z.eqb_spec b2 WINDOW_SIZE); cbn [fst];
    [|split; [split; [tauto|reflexivity]|intros; contradiction]].
  split; [|reflexivity].
  split; [discriminate|tauto].
Qed.

Lemma window_size_assertions_witness :
  fst (WINDOW_SIZE_impl 3
         (mkPState [IAC; SB; 31; 0; 80; 0; 24; IAC; 0]
                   (set_option 31 (set_command SB empty_event))))
  = Throw AssertionError.
Proof.
  apply (proj1 (window_size_assertions IAC SB 31 0 80 0 24 IAC 0 3 []
                  (set_option 31 (set_command SB empty_event)) eq_refl)).
  right. right. right. right. discriminate.
Defined.

(** ** An IAC at the end of the queue *)

(** C10 (as amended).  When the first [IAC] that the loop finds in the queue
    is the last byte of the queue, the handler fails the assertion
    [bufs.length > i + 1]: nothing is emitted or taken off the queue, and no
    [MORE] is returned.  So literal bytes followed by a lone [IAC], delivered
    to a session with nothing pending, make the handler throw; [IAC] alone
    followed by [DO 31] throws at the first delivery, whereas [IAC DO]
    followed by [31] is handled. *)
Theorem lone_iac_asserts (d : Buffer) (s : Socket)
  (Hd : iac_free d = true) (Hs : bufs s = []) :
  on_data (d ++ [IAC]) s = (Throw AssertionError, set_bufs (d ++ [IAC]) s)
  /\ (forall fuel s',
        0 <= Bufs.indexOf (bufs s') IAC ->
        Bufs.indexOf (bufs s') IAC + 1 = Bufs.length (bufs s') ->
        data_loop (Datatypes.S fuel) s' = (Throw AssertionError, s'))
  /\ on_data [IAC] new_Socket = (Throw AssertionError, set_bufs [IAC] new_Socket)
  /\ fst ((on_data [IAC] ;; on_data [DO; WINDOW_SIZE]) new_Socket) =
     Throw AssertionError
  /\ fst ((on_data [IAC; DO] ;; on_data [WINDOW_SIZE]) new_Socket) = Return tt.
Proof.
  split; [|split; [exact data_loop_lone_iac|repeat split]].
  rewrite on_data_eq, Hs. cbn [app].
  rewrite data_loop_lone_iac; [reflexivity| |];
    cbn [bufs set_bufs]; rewrite indexOf_app_iac by exact Hd.
  - apply length_nonneg.
  - rewrite length_app, length_cons, length_nil. lia.
Qed.

Lemma lone_iac_asserts_witness :
  on_data ([97; 98] ++ [IAC]) new_Socket =
  (Throw AssertionError, set_bufs ([97; 98] ++ [IAC]) new_Socket).
Proof.
  exact (proj1 (lone_iac_asserts [97; 98] new_Socket eq_refl eq_refl)).
Defined.

(** C10 as stated fails: a queue can end in an [IAC] with no byte behind it
    and the handler does not fail an assertion.  A window-size frame cut
    before its [SE] is suspended with [MORE], and the second byte of a
    doubled [IAC] is consumed with the first. *)
Lemma final_iac_without_assertion :
  last [IAC; SB; WINDOW_SIZE; 0; 80; 0; IAC] 0 = IAC
  /\ parse [IAC; SB; WINDOW_SIZE; 0; 80; 0; IAC] =
     (Return MORE, [IAC; SB; WINDOW_SIZE; 0; 80; 0; IAC])
  /\ on_data [IAC; SB; WINDOW_SIZE; 0; 80; 0; IAC] new_Socket =
     (Return tt, set_bufs [IAC; SB; WINDOW_SIZE; 0; 80; 0; IAC] new_Socket)
  /\ last [IAC; IAC] 0 = IAC
  /\ fst (on_data [IAC; IAC] new_Socket) = Return tt.
Proof. repeat split. Qed.

(** ** Demand gating *)


Lemma on_run event s :
  on event s =
  (Return tt,
   if String.eqb event "data"
   then add_data_listener (set_input (mkTransport false (t_queue (input s))) s)
   else s).
Proof.
  unfold on, bind. destruct (String.eqb event "data"); reflexivity.
Qed.




Lemma data_events_set_bufs b s : data_events (set_bufs b s) = data_events s.
Proof. reflexivity. Qed.






Lemma run_app tr1 tr2 s :
  run (tr1 ++ tr2) s =
  match run tr1 s with
  | (Return _, s1) => run tr2 s1
  | (Throw e, s1) => (Throw e, s1)
  end.
Proof.
  revert s. induction tr1 as [|a tr1 IH]; intros s; [reflexivity|].
  cbn [app run]. unfold bind. destruct (step a s) as [[[]|e] s1]; [apply IH|reflexivity].
Qed.


(** ** Outbound newlines *)

(** The replacement that the source performs is the normalisation that the
    specification describes. *)
Lemma normalize_from_replace l :
  normalize_newlines_from false l = replace_newlines l
  /\ normalize_newlines_from true l =
     match l with
     | [] => []
     | c :: r => if c =? LF then LF :: replace_newlines r
                 else replace_newlines l
     end.
Proof.
  induction l as [|c r [IHf IHt]]; [split; reflexivity|].
  split.
  - cbn [normalize_newlines_from replace_newlines].
    destruct (Z.eqb_spec c LF) as [->|Hlf].
    + cbn [Z.eqb LF CR Pos.eqb app]. rewrite IHf. reflexivity.
    + destruct (Z.eqb_spec c CR) as [->|Hcr].
      * rewrite IHt. destruct r as [|d r']; [reflexivity|].
        destruct (d =? LF); reflexivity.
      * rewrite IHf. reflexivity.
  - cbn [normalize_newlines_from].
    destruct (Z.eqb_spec c LF) as [->|Hlf].
    + cbn [app]. rewrite IHf. reflexivity.
    + cbn [replace_newlines].
      destruct (Z.eqb_spec c LF) as [|_]; [contradiction|].
      destruct (Z.eqb_spec c CR) as [->|Hcr].
      * rewrite IHt. destruct r as [|d r']; [reflexivity|].
        destruct (d =? LF); reflexivity.
      * rewrite IHf. reflexivity.
Qed.

Lemma replace_is_normalize l : replace_newlines l = normalize_newlines l.
Proof. symmetry. apply normalize_from_replace. Qed.

Lemma replace_no_newline l rest :
  Forall (fun x => x <> CR /\ x <> LF) l ->
  replace_newlines (l ++ rest) = l ++ replace_newlines rest.
Proof.
  induction 1 as [|x l [Hcr Hlf] _ IH]; [reflexivity|].
  cbn [app replace_newlines].
  destruct (Z.eqb_spec x CR); [contradiction|].
  destruct (Z.eqb_spec x LF); [contradiction|].
  rewrite IH. reflexivity.
Qed.

(** A code point is a byte below 128 written as itself, or its bytes are all
    128 or more. *)
Lemma encode1_shape c :
  (c < 128 /\ UTF8.encode1 c = [c])
  \/ (128 <= c /\ Forall (fun x => 128 <= x) (UTF8.encode1 c)).
Proof.
  unfold UTF8.encode1.
  destruct (Z.ltb_spec c 128); [left; split; [assumption|reflexivity]|].
  right. split; [assumption|].
  pose proof (Z.mod_pos_bound c 64 ltac:(lia)).
  pose proof (Z.mod_pos_bound (c / 64) 64 ltac:(lia)).
  pose proof (Z.mod_pos_bound (c / 4096) 64 ltac:(lia)).
  assert (0 <= c / 64) by (apply Z.div_pos; lia).
  assert (0 <= c / 4096) by (apply Z.div_pos; lia).
  assert (0 <= c / 262144) by (apply Z.div_pos; lia).
  destruct (c <? 2048); [|destruct (c <? 65536)]; repeat constructor; lia.
Qed.

Lemma high_bytes_no_newline l :
  Forall (fun x => 128 <= x) l -> Forall (fun x => x <> CR /\ x <> LF) l.
Proof.
  apply Forall_impl. intros x Hx. unfold CR, LF. lia.
Qed.

(** Encoding commutes with the replacement of newlines. *)
Lemma encode_replace n :
  forall s, (List.length s <= n)%nat ->
  UTF8.encode (replace_newlines s) = replace_newlines (UTF8.encode s).
Proof.
  induction n as [|n IH]; intros s Hn.
  { destruct s; [reflexivity|cbn in Hn; lia]. }
  destruct s as [|c r]; [reflexivity|].
  cbn [List.length] in Hn. unfold UTF8.encode in *.
  cbn [replace_newlines flat_map].
  destruct (Z.eqb_spec c CR) as [->|Hcr].
  - destruct r as [|d r'].
    + reflexivity.
    + destruct (Z.eqb_spec d LF) as [->|Hlf].
      * cbn [flat_map]. change (UTF8.encode1 CR) with [CR].
        change (UTF8.encode1 LF) with [LF]. cbn [app replace_newlines Z.eqb CR LF Pos.eqb].
        rewrite IH by (cbn [List.length] in Hn; lia). reflexivity.
      * cbn [flat_map]. change (UTF8.encode1 CR) with [CR]. cbn [app].
        rewrite IH by lia. cbn [flat_map].
        destruct (encode1_shape d) as [[Hd Ed]|[Hd Ed]].
        -- rewrite Ed. cbn [app replace_newlines Z.eqb CR Pos.eqb].
           destruct (Z.eqb_spec d LF); [contradiction|]. reflexivity.
        -- destruct (UTF8.encode1 d) as [|x xs] eqn:Ex.
           { unfold UTF8.encode1 in Ex.
             destruct (d <? 128), (d <? 2048), (d <? 65536); discriminate Ex. }
           cbn [app]. cbn [replace_newlines Z.eqb CR Pos.eqb].
           inversion Ed; subst.
           destruct (Z.eqb_spec x LF) as [->|_]; [unfold LF in *; lia|]. reflexivity.
  - destruct (Z.eqb_spec c LF) as [->|Hlf].
    + cbn [flat_map]. change (UTF8.encode1 CR) with [CR].
      change (UTF8.encode1 LF) with [LF]. cbn [app replace_newlines Z.eqb CR LF Pos.eqb].
      rewrite IH by lia. reflexivity.
    + cbn [flat_map]. rewrite IH by lia.
      rewrite replace_no_newline; [reflexivity|].
      destruct (encode1_shape c) as [[Hc Ec]|[Hc Ec]].
      * rewrite Ec. constructor; [split; assumption|constructor].
      * apply high_bytes_no_newline. exact Ec.
Qed.

(** The bytes of a well-formed sequence of two, three or four bytes are the
    encoding of the code point they decode to. *)
Lemma encode1_two b0 b1 :
  UTF8.between 194 223 b0 = true -> UTF8.continuation b1 = true ->
  UTF8.encode1 ((b0 - 192) * 64 + (b1 - 128)) = [b0; b1].
Proof.
  unfold UTF8.between, UTF8.continuation, UTF8.encode1.
  rewrite !andb_true_iff, !Z.leb_le. intros [? ?] [? ?].
  destruct (Z.ltb_spec ((b0 - 192) * 64 + (b1 - 128)) 128); [lia|].
  destruct (Z.ltb_spec ((b0 - 192) * 64 + (b1 - 128)) 2048); [|lia].
  f_equal; [|f_equal]; Z.div_mod_to_equations; lia.
Qed.

Lemma second_range b0 b1 :
  UTF8.between (UTF8.second_lo b0) (UTF8.second_hi b0) b1 = true ->
  128 <= b1 <= 191
  /\ (b0 = 224 -> 160 <= b1) /\ (b0 = 237 -> b1 <= 159)
  /\ (b0 = 240 -> 144 <= b1) /\ (b0 = 244 -> b1 <= 143).
Proof.
  unfold UTF8.between, UTF8.second_lo, UTF8.second_hi.
  rewrite andb_true_iff, !Z.leb_le.
  destruct (Z.eqb_spec b0 224), (Z.eqb_spec b0 240), (Z.eqb_spec b0 237),
    (Z.eqb_spec b0 244); lia.
Qed.

Lemma encode1_three b0 b1 b2 :
  UTF8.between 224 239 b0 = true ->
  UTF8.between (UTF8.second_lo b0) (UTF8.second_hi b0) b1 = true ->
  UTF8.continuation b2 = true ->
  UTF8.encode1 ((b0 - 224) * 4096 + (b1 - 128) * 64 + (b2 - 128)) = [b0; b1; b2].
Proof.
  intros H0 H1 H2. apply second_range in H1.
  revert H0 H2. unfold UTF8.between, UTF8.continuation, UTF8.encode1.
  rewrite !andb_true_iff, !Z.leb_le. intros [? ?] [? ?].
  set (c := (b0 - 224) * 4096 + (b1 - 128) * 64 + (b2 - 128)).
  assert (2048 <= c < 65536) by (subst c; lia).
  destruct (Z.ltb_spec c 128); [lia|].
  destruct (Z.ltb_spec c 2048); [lia|].
  destruct (Z.ltb_spec c 65536); [|lia].
  subst c. f_equal; [|f_equal; [|f_equal]]; Z.div_mod_to_equations; lia.
Qed.

Lemma encode1_four b0 b1 b2 b3 :
  UTF8.between 240 244 b0 = true ->
  UTF8.between (UTF8.second_lo b0) (UTF8.second_hi b0) b1 = true ->
  UTF8.continuation b2 = true -> UTF8.continuation b3 = true ->
  UTF8.encode1 ((b0 - 240) * 262144 + (b1 - 128) * 4096
                + (b2 - 128) * 64 + (b3 - 128)) = [b0; b1; b2; b3].
Proof.
  intros H0 H1 H2 H3. apply second_range in H1.
  revert H0 H2 H3. unfold UTF8.between, UTF8.continuation, UTF8.encode1.
  rewrite !andb_true_iff, !Z.leb_le. intros [? ?] [? ?] [? ?].
  set (c := (b0 - 240) * 262144 + (b1 - 128) * 4096 + (b2 - 128) * 64 + (b3 - 128)).
  assert (65536 <= c < 1114112) by (subst c; lia).
  destruct (Z.ltb_spec c 128); [lia|].
  destruct (Z.ltb_spec c 2048); [lia|].
  destruct (Z.ltb_spec c 65536); [lia|].
  subst c. f_equal; [|f_equal; [|f_equal; [|f_equal]]]; Z.div_mod_to_equations; lia.
Qed.

(** Decoding well-formed UTF-8 and encoding the result gives the bytes
    back. *)
Lemma encode_decode fuel :
  forall bs, UTF8.well_formed fuel bs = true ->
  UTF8.encode (UTF8.decode bs) = bs.
Proof.
  induction fuel as [|fuel IH]; intros bs H.
  { destruct bs; [reflexivity|discriminate H]. }
  destruct bs as [|b0 r0]; [reflexivity|].
  cbn [UTF8.well_formed] in H. cbn [UTF8.decode].
  destruct (UTF8.between 0 127 b0) eqn:Hascii.
  { unfold UTF8.between in Hascii. apply andb_true_iff in Hascii as [Hlo Hhi].
    apply Z.leb_le in Hlo, Hhi.
    destruct (Z.ltb_spec b0 128); [|lia].
    unfold UTF8.encode. cbn [flat_map]. fold (UTF8.encode (UTF8.decode r0)).
    rewrite (IH r0 H). unfold UTF8.encode1.
    destruct (Z.ltb_spec b0 128); [reflexivity|lia]. }
  assert (Hhigh : (b0 <? 128) = false).
  { destruct (UTF8.between 194 223 b0) eqn:E2;
      [|destruct (UTF8.between 224 239 b0) eqn:E3;
        [|destruct (UTF8.between 240 244 b0) eqn:E4; [|discriminate H]]];
      unfold UTF8.between in *;
      match goal with
      | E : (_ <=? b0) && _ = true |- _ =>
          apply andb_true_iff in E as [E _]; apply Z.leb_le in E
      end; apply Z.ltb_ge; lia. }
  rewrite Hhigh.
  destruct (UTF8.between 194 223 b0) eqn:E2.
  { destruct r0 as [|b1 r1]; [discriminate H|].
    apply andb_true_iff in H as [H1 H]. rewrite H1.
    unfold UTF8.encode. cbn [flat_map]. fold (UTF8.encode (UTF8.decode r1)).
    rewrite (IH r1 H), encode1_two by assumption. reflexivity. }
  destruct (UTF8.between 224 239 b0) eqn:E3.
  { destruct r0 as [|b1 [|b2 r2]]; try discriminate H.
    apply andb_true_iff in H as [H12 H]. apply andb_true_iff in H12 as [H1 H2].
    rewrite H1, H2.
    unfold UTF8.encode. cbn [flat_map]. fold (UTF8.encode (UTF8.decode r2)).
    rewrite (IH r2 H), encode1_three by assumption. reflexivity. }
  destruct (UTF8.between 240 244 b0) eqn:E4; [|discriminate H].
  destruct r0 as [|b1 [|b2 [|b3 r3]]]; try discriminate H.
  apply andb_true_iff in H as [H123 H]. apply andb_true_iff in H123 as [H12 H3].
  apply andb_true_iff in H12 as [H1 H2]. rewrite H1, H2, H3.
  unfold UTF8.encode. cbn [flat_map]. fold (UTF8.encode (UTF8.decode r3)).
  rewrite (IH r3 H), encode1_four by assumption. reflexivity.
Qed.

Lemma write_run b s :
  convertLF s = true ->
  write b s =
  (Return tt, grow s [JString (replace_newlines (toString_utf8 b))] []).
Proof.
  intros H. unfold write, bind, gets. rewrite H. reflexivity.
Qed.

(** C2 (as amended).  With [convertLF] set, [write] called with one
    argument, a [Buffer] that holds well-formed UTF-8 (any ASCII text, for
    one), hands the transport's [write] one string and nothing else: the text
    of the buffer in which every newline, a lone LF or one behind a CR, has
    become CR LF.  The bytes that go out for this string are the normalised
    bytes of the buffer.  The replacement performed by the source is the
    normalisation of the specification on every sequence, and a string
    argument is normalised the same way. *)
Theorem write_normalizes_newlines (b : Buffer) (s : Socket)
  (Hc : convertLF s = true) (Hv : UTF8.valid b = true) :
  write (JBuffer b) s =
    (Return tt, grow s [JString (replace_newlines (UTF8.decode b))] [])
  /\ wire_bytes (JString (replace_newlines (UTF8.decode b))) =
     normalize_newlines b
  /\ outbound_bytes (snd (write (JBuffer b) s)) =
     outbound_bytes s ++ normalize_newlines b
  /\ (forall l, replace_newlines l = normalize_newlines l)
  /\ (forall str, write (JString str) s =
        (Return tt, grow s [JString (normalize_newlines str)] [])).
Proof.
  assert (W : wire_bytes (JString (replace_newlines (UTF8.decode b))) =
              normalize_newlines b).
  { cbn [wire_bytes]. rewrite (encode_replace _ _ (Nat.le_refl _)).
    rewrite (encode_decode _ _ Hv). apply replace_is_normalize. }
  split; [apply write_run; exact Hc|]. split; [exact W|]. split.
  { rewrite write_run by exact Hc. cbn [snd]. rewrite outbound_bytes_grow.
    cbn [flat_map toString_utf8]. rewrite app_nil_r, W. reflexivity. }
  split; [exact replace_is_normalize|].
  intros str. rewrite write_run by exact Hc. cbn [toString_utf8].
  rewrite replace_is_normalize. reflexivity.
Qed.

Lemma write_normalizes_newlines_witness :
  wire_bytes (JString (replace_newlines
                         (UTF8.decode [104; 105; 10; 195; 169; 13; 10; 10]))) =
  normalize_newlines [104; 105; 10; 195; 169; 13; 10; 10].
Proof.
  exact (proj1 (proj2 (write_normalizes_newlines
                         [104; 105; 10; 195; 169; 13; 10; 10] new_Socket
                         eq_refl eq_refl))).
Defined.

(** C2 as stated fails for a byte sequence that is not UTF-8: the byte 255
    is decoded to U+FFFD, and the bytes that go out are those of U+FFFD,
    with or without a newline behind it. *)
Lemma write_alters_non_utf8 :
  convertLF new_Socket = true
  /\ written (snd (write (JBuffer [255]) new_Socket)) = [JString [65533]]
  /\ outbound_bytes (snd (write (JBuffer [255]) new_Socket)) = [239; 191; 189]
  /\ outbound_bytes (snd (write (JBuffer [255]) new_Socket))
     <> normalize_newlines [255]
  /\ outbound_bytes (snd (write (JBuffer [255; 10]) new_Socket))
     <> normalize_newlines [255; 10].
Proof. repeat split; vm_compute; discriminate. Qed.

(** * Further properties of the code *)

(** ** The loop and its fuel *)

Lemma handle_set_bufs this e b s :
  _handleOptions this e (set_bufs b s) =
  (fst (_handleOptions this e s), set_bufs b (snd (_handleOptions this e s))).
Proof.
  unfold _handleOptions.
  destruct (truthy (option_name e)); [|reflexivity].
  destruct (strict_eq (commandCode e) (_receiveDisable this)); [reflexivity|].
  destruct (strict_eq (commandCode e) (_receiveEnable this)); reflexivity.
Qed.

Lemma emit_set_bufs name arg b s :
  emit name arg (set_bufs b s) =
  (fst (emit name arg s), set_bufs b (snd (emit name arg s))).
Proof.
  unfold emit, bind, modify.
  destruct (String.eqb name "event"); [|reflexivity].
  destruct arg as [e|d]; [|reflexivity]. unfold option_listeners, bind.
  change (add_emitted ?x (set_bufs b s)) with (set_bufs b (add_emitted x s)).
  rewrite handle_set_bufs.
  destruct (handle_run options_local e (add_emitted (Emit name (AEvent e)) s))
    as [w1 H1].
  rewrite H1. cbn [fst snd]. rewrite handle_set_bufs.
  destruct (handle_run options_remote e
              (grow (add_emitted (Emit name (AEvent e)) s) w1 [])) as [w2 H2].
  rewrite H2. reflexivity.
Qed.

Ltac emit_frame :=
  match goal with
  | |- context [emit ?n ?a (set_bufs ?b ?s)] =>
      rewrite (emit_set_bufs n a b s);
      let w := fresh "w" in
      destruct (emit_run n a s) as [w ->]; cbn [fst snd]
  end.

Lemma dispatch_set_bufs e b s :
  dispatch e (set_bufs b s) =
  (fst (dispatch e s), set_bufs b (snd (dispatch e s))).
Proof.
  unfold dispatch, bind, ret. emit_frame. emit_frame.
  destruct (truthy (option_name e)); [emit_frame|];
    (destruct (data e) as [d|]; [emit_frame|]); reflexivity.
Qed.

Lemma data_loop_S fuel : data_loop (Datatypes.S fuel) = loop_body (data_loop fuel).
Proof. reflexivity. Qed.

Ltac enter_loop_body i E1 E2 :=
  unfold loop_body; unfold bind at 1; unfold gets at 1; fold i; rewrite E1;
  try (unfold bind at 1; unfold gets at 1; unfold bind at 1; rewrite E2;
       cbn [assert ret]).

Lemma evolves_trans s1 s2 s3 : evolves s1 s2 -> evolves s2 s3 -> evolves s1 s3.
Proof.
  intros H12 H23. induction H23; [assumption|constructor|constructor]; assumption.
Qed.

Lemma dispatch_evolves e s : evolves s (snd (dispatch e s)).
Proof.
  unfold dispatch, bind, ret.
  pose proof (evolves_emit s "event" (AEvent e) s (evolves_refl s)) as H1.
  destruct (emit_run "event" (AEvent e) s) as [w1 E1]. rewrite E1 in *. cbn [snd] in H1.
  match goal with
  | |- context [emit ?n ?a ?s1] =>
      pose proof (evolves_emit s n a s1 H1) as H2;
      destruct (emit_run n a s1) as [w2 E2]; rewrite E2 in *; cbn [snd] in H2
  end.
  assert (Hlast : forall s2, evolves s s2 ->
            evolves s (snd (match data e with
                            | Some d => emit "data" (AData d)
                            | None => fun s0 => (Return tt, s0)
                            end s2))).
  { intros s2 H. destruct (data e); [constructor; exact H|exact H]. }
  destruct (truthy (option_name e)).
  - match goal with
    | |- context [emit ?n ?a ?s1] =>
        pose proof (evolves_emit s n a s1 H2) as H3;
        destruct (emit_run n a s1) as [w3 E3]; rewrite E3 in *; cbn [snd] in H3
    end.
    apply Hlast. exact H3.
  - apply Hlast. exact H2.
Qed.

(** One turn of the loop either ends the loop, whatever would follow, or
    goes on with a queue that is at least two bytes shorter.  A turn that
    ends with [MORE] leaves a queue on which [parse] returns [MORE], a turn
    that finds no [IAC] changes nothing. *)
Lemma loop_body_cases s :
  (exists r s',
      (forall again, loop_body again s = (r, s')) /\ evolves s s'
      /\ match r with
         | Return (I_index i) => s' = s /\ iac_free (bufs s) = true
         | Return I_MORE => parse (bufs s') = (Return MORE, bufs s')
         | Throw err => err <> FuelExhausted
         end)
  \/ (exists s', (List.length (bufs s') + 2 <= List.length (bufs s))%nat
                 /\ evolves s s'
                 /\ forall again, loop_body again s = again s').
Proof.
  set (i := Bufs.indexOf (bufs s) IAC).
  destruct (0 <=? i) eqn:E1.
  2:{ left. exists (Return (I_index i)), s. split; [|split; [constructor|split; [reflexivity|]]].
      - intros again. unfold loop_body. unfold bind at 1. unfold gets at 1. fold i.
        rewrite E1. reflexivity.
      - apply Z.leb_gt in E1. subst i. clear - E1.
        induction (bufs s) as [|b l IH]; [reflexivity|].
        cbn [Bufs.indexOf] in E1. cbn [iac_free forallb]. fold (iac_free l).
        destruct (b =? IAC); [lia|].
        destruct (Z.ltb_spec (Bufs.indexOf l IAC) 0); [|lia].
        rewrite IH by assumption. reflexivity. }
  destruct (i + 1 <? Bufs.length (bufs s)) eqn:E2.
  2:{ left. exists (Throw AssertionError), s.
      split; [|split; [constructor|discriminate]].
      intros again. enter_loop_body i E1 E2. reflexivity. }
  assert (Hflush : exists b1 w1 em1,
             (if 0 <? i then d <- socket_splice0 i;; emit "data" (AData d) else ret tt) s
             = (Return tt, set_bufs b1 (grow s w1 em1))
             /\ (List.length b1 <= List.length (bufs s))%nat
             /\ evolves s (set_bufs b1 (grow s w1 em1))).
  { destruct (0 <? i).
    - unfold bind, socket_splice0, Bufs.splice0.
      pose proof (evolves_emit s "data" (AData (firstn (Z.to_nat i) (bufs s)))
                    _ (evolves_bufs s (skipn (Z.to_nat i) (bufs s)) s (evolves_refl s)))
        as Hev.
      match goal with |- context [emit ?n ?a ?s] => destruct (emit_run n a s) as [w1 Hw1] end.
      rewrite Hw1 in *. cbn [snd] in Hev.
      exists (skipn (Z.to_nat i) (bufs s)), w1, [Emit "data" (AData (firstn (Z.to_nat i) (bufs s)))].
      split; [reflexivity|]. split; [rewrite List.length_skipn; lia|exact Hev].
    - exists (bufs s), [], []. rewrite grow_nil, set_bufs_same.
      split; [reflexivity|split; [lia|constructor]]. }
  destruct Hflush as (b1 & w1 & em1 & E3 & Hb1 & Hev1).
  pose proof (parse_effect b1) as P.
  destruct (parse b1) as [[[|e]|err] b2] eqn:E4.
  - left. exists (Return I_MORE), (set_bufs b2 (grow s w1 em1)).
    split; [|split; [exact (evolves_bufs s b2 _ Hev1)|]].
    + intros again. enter_loop_body i E1 E2. unfold bind at 1. rewrite E3.
      unfold bind at 1. unfold socket_parse. cbn [bufs set_bufs]. rewrite E4.
      reflexivity.
    + cbn [bufs set_bufs]. subst b2. exact E4.
  - right.
    destruct (dispatch_run e (set_bufs b2 (grow s w1 em1))) as (w2 & em2 & E5).
    pose proof (dispatch_evolves e (set_bufs b2 (grow s w1 em1))) as Hev2.
    rewrite E5 in Hev2. cbn [snd] in Hev2.
    exists (grow (set_bufs b2 (grow s w1 em1)) w2 em2). split; [|split].
    + apply parse_consumes in E4. cbn [bufs grow set_bufs]. lia.
    + eapply evolves_trans; [exact (evolves_bufs s b2 _ Hev1)|exact Hev2].
    + intros again. enter_loop_body i E1 E2. unfold bind at 1. rewrite E3.
      unfold bind at 1. unfold socket_parse. cbn [bufs set_bufs]. rewrite E4.
      unfold bind at 1.
      change (dispatch e _) with (dispatch e (set_bufs b2 (grow s w1 em1))).
      rewrite E5. reflexivity.
  - left. exists (Throw err), (set_bufs b2 (grow s w1 em1)).
    split; [|split; [exact (evolves_bufs s b2 _ Hev1)|]].
    + intros again. enter_loop_body i E1 E2. unfold bind at 1. rewrite E3.
      unfold bind at 1. unfold socket_parse. cbn [bufs set_bufs]. rewrite E4.
      reflexivity.
    + destruct err; try discriminate; contradiction.
Qed.

(** The result of the loop does not depend on the fuel, as soon as the fuel
    exceeds the length of the queue. *)
Lemma data_loop_fuel f1 :
  forall f2 s,
    (List.length (bufs s) < f1)%nat -> (List.length (bufs s) < f2)%nat ->
    data_loop f1 s = data_loop f2 s.
Proof.
  induction f1 as [|f1 IH]; intros f2 s H1 H2; [lia|].
  destruct f2 as [|f2]; [lia|]. rewrite !data_loop_S.
  destruct (loop_body_cases s) as [(r & s' & E & _)|(s' & Hlen & _ & E)];
    rewrite !E.
  - reflexivity.
  - apply IH; lia.
Qed.

(** ** Deliveries taken apart *)

Lemma on_data_nil s : bufs s = [] -> on_data [] s = (Return tt, s).
Proof. intros H. rewrite on_data_literal by (assumption || reflexivity). reflexivity. Qed.

Lemma set_bufs_twice b b' s : set_bufs b (set_bufs b' s) = set_bufs b s.
Proof. reflexivity. Qed.

Lemma dispatch_keeps_bufs e s : bufs (snd (dispatch e s)) = bufs s.
Proof. destruct (dispatch_run e s) as (w & em & ->). reflexivity. Qed.

Lemma dispatch_returns e s : fst (dispatch e s) = Return tt.
Proof. destruct (dispatch_run e s) as (w & em & ->). reflexivity. Qed.

(** A complete frame at the head of a delivery is dispatched, and the rest
    of the delivery is handled as a delivery of its own. *)
Lemma on_data_head_frame s c tl e rest :
  bufs s = [] ->
  parse (IAC :: c :: tl) = (Return (Parsed e), rest) ->
  on_data (IAC :: c :: tl) s = (dispatch e ;; on_data rest) s.
Proof.
  intros Hs Hp. rewrite on_data_eq, Hs. cbn [app].
  rewrite (data_loop_frame _ _ [] c tl) by reflexivity.
  rewrite Hp. cbv zeta. cbn [after_data]. unfold bind.
  rewrite set_bufs_twice, dispatch_set_bufs.
  destruct (dispatch_run e s) as (w & em & ->). cbn [fst snd].
  rewrite on_data_eq. cbn [bufs grow]. rewrite Hs. cbn [app].
  apply parse_consumes in Hp.
  rewrite (data_loop_fuel _ (Datatypes.S (List.length rest)))
    by (cbn [bufs set_bufs grow List.length] in *; lia).
  reflexivity.
Qed.

(** Literal bytes in front of a frame are emitted as if they had been
    delivered on their own. *)
Lemma on_data_literal_then_frame s d c tl :
  bufs s = [] -> iac_free d = true ->
  on_data (d ++ IAC :: c :: tl) s = (on_data d ;; on_data (IAC :: c :: tl)) s.
Proof.
  intros Hs Hd. unfold bind at 1. rewrite (on_data_literal d s Hs Hd).
  assert (Hs1 : bufs (after_data d s) = []) by (destruct d; exact Hs).
  rewrite !on_data_eq, Hs, Hs1. cbn [app].
  rewrite (data_loop_frame _ _ d c tl) by (assumption || reflexivity).
  rewrite (data_loop_frame _ _ [] c tl) by reflexivity.
  cbv zeta. cbn [after_data].
  assert (E : forall b, set_bufs b (set_bufs (IAC :: c :: tl) (after_data d s))
                        = set_bufs b (after_data d (set_bufs (d ++ IAC :: c :: tl) s))).
  { intros b. destruct d; reflexivity. }
  pose proof (parse_effect (IAC :: c :: tl)) as P.
  destruct (parse (IAC :: c :: tl)) as [[[|e]|err] b'] eqn:Hp; rewrite E; try reflexivity.
  unfold bind.
  destruct (dispatch_run e (set_bufs b' (after_data d (set_bufs (d ++ IAC :: c :: tl) s))))
    as (w & em & ->).
  apply parse_consumes in Hp.
  rewrite (data_loop_fuel _ (List.length (IAC :: c :: tl)));
    [reflexivity| |]; cbn [bufs set_bufs grow]; rewrite ?List.length_app;
    cbn [List.length] in *; lia.
Qed.

(** ** Escaped data *)

Lemma split_at_iac l :
  iac_free l = true
  \/ exists pre rest, l = pre ++ IAC :: rest /\ iac_free pre = true.
Proof.
  induction l as [|b l IH]; [left; reflexivity|].
  destruct (Z.eqb_spec b IAC) as [->|Hb].
  - right. exists [], l. split; reflexivity.
  - destruct IH as [IH|(pre & rest & -> & Hpre)].
    + left. cbn [iac_free forallb]. fold (iac_free l). rewrite IH.
      apply Z.eqb_neq in Hb. rewrite Hb. reflexivity.
    + right. exists (b :: pre), rest. split; [reflexivity|].
      cbn [iac_free forallb]. fold (iac_free pre). rewrite Hpre.
      apply Z.eqb_neq in Hb. rewrite Hb. reflexivity.
Qed.

Lemma escape_literal l : iac_free l = true -> escape_iac l = l.
Proof.
  induction l as [|b l IH]; [reflexivity|].
  cbn [iac_free forallb]. fold (iac_free l). rewrite andb_true_iff, negb_true_iff.
  intros [Hb Hl]. unfold escape_iac in *. cbn [flat_map]. rewrite Hb, (IH Hl).
  reflexivity.
Qed.

Lemma escape_app l1 l2 : escape_iac (l1 ++ l2) = escape_iac l1 ++ escape_iac l2.
Proof. unfold escape_iac. apply flat_map_app. Qed.

Lemma on_data_escaped n :
  forall l s, (List.length l <= n)%nat -> bufs s = [] ->
  exists em,
    on_data (escape_iac l) s = (Return tt, grow s [] em)
    /\ List.concat (data_of em) = l.
Proof.
  induction n as [|n IH]; intros l s Hn Hs.
  { destruct l; [|cbn in Hn; lia]. exists []. rewrite grow_nil.
    split; [apply on_data_nil; exact Hs|reflexivity]. }
  destruct (split_at_iac l) as [Hl|(pre & rest & -> & Hpre)].
  { rewrite (escape_literal l Hl), (on_data_literal l s Hs Hl).
    destruct l as [|b l]; [exists []; rewrite grow_nil; split; reflexivity|].
    exists [Emit "data" (AData (b :: l))]. split; [reflexivity|].
    cbn. rewrite app_nil_r. reflexivity. }
  rewrite escape_app, (escape_literal pre Hpre).
  change (escape_iac (IAC :: rest)) with (IAC :: IAC :: escape_iac rest).
  rewrite (on_data_literal_then_frame s pre IAC (escape_iac rest) Hs Hpre).
  unfold bind at 1. rewrite (on_data_literal pre s Hs Hpre).
  assert (Hs1 : bufs (after_data pre s) = []) by (destruct pre; exact Hs).
  rewrite (on_data_head_frame _ IAC (escape_iac rest) iac_event (escape_iac rest) Hs1)
    by apply parse_iac_iac.
  unfold bind at 1. rewrite dispatch_iac.
  rewrite List.length_app in Hn. cbn [List.length] in Hn.
  match goal with
  | |- context [on_data (escape_iac rest) ?s1] =>
      destruct (IH rest s1) as (em & -> & Hem); [lia|exact Hs1|]
  end.
  exists ((match pre with [] => [] | _ :: _ => [Emit "data" (AData pre)] end)
          ++ [Emit "event" (AEvent iac_event); Emit "iac" (AEvent iac_event);
              Emit "data" (AData [255])] ++ em).
  split.
  - f_equal. destruct pre; cbn [after_data]; rewrite !grow_grow; reflexivity.
  - unfold data_of in *. rewrite !flat_map_app, !List.concat_app, Hem.
    destruct pre; cbn; rewrite ?app_nil_r; reflexivity.
Qed.

(** ** What the handler leaves behind *)

Lemma data_loop_exit fuel :
  forall s, (List.length (bufs s) < fuel)%nat ->
  exists r s',
    data_loop fuel s = (r, s') /\ evolves s s'
    /\ match r with
       | Return (I_index _) => iac_free (bufs s') = true
       | Return I_MORE => parse (bufs s') = (Return MORE, bufs s')
       | Throw err => err <> FuelExhausted
       end.
Proof.
  induction fuel as [|fuel IH]; intros s Hlt; [lia|].
  rewrite data_loop_S.
  destruct (loop_body_cases s) as [(r & s' & E & Hev & Hr)|(s' & Hlen & Hev & E)];
    rewrite E.
  - exists r, s'. split; [reflexivity|split; [exact Hev|]].
    destruct r as [[i|]|err]; try exact Hr. destruct Hr as [-> Hr]. exact Hr.
  - destruct (IH s') as (r & s2 & E2 & Hev2 & Hr); [lia|].
    exists r, s2. split; [exact E2|split; [|exact Hr]].
    eapply evolves_trans; eassumption.
Qed.

Lemma on_data_exit b s :
  exists r s',
    on_data b s = (r, s') /\ evolves s s'
    /\ match r with
       | Return _ => bufs s' = [] \/ parse (bufs s') = (Return MORE, bufs s')
       | Throw err => err <> FuelExhausted
       end.
Proof.
  rewrite on_data_eq.
  destruct (data_loop_exit (Datatypes.S (List.length (bufs s ++ b)))
              (set_bufs (bufs s ++ b) s)) as (r & s1 & -> & Hev & Hr);
    [cbn [bufs set_bufs]; lia|].
  assert (Hev0 : evolves s s1).
  { eapply evolves_trans; [|exact Hev]. constructor. constructor. }
  destruct r as [[i|]|err].
  - eexists _, _. split; [reflexivity|]. split; [|left; destruct (bufs s1); reflexivity].
    destruct (bufs s1) as [|b0 b1]; cbn [after_data].
    + constructor. exact Hev0.
    + exact (evolves_emit s "data" (AData (b0 :: b1)) _ (evolves_bufs s [] _ Hev0)).
  - eexists _, _. split; [reflexivity|]. split; [exact Hev0|right; exact Hr].
  - eexists _, _. split; [reflexivity|]. split; [exact Hev0|exact Hr].
Qed.

Lemma option_command_range c :
  lookup c COMMAND_IMPLS <> None <-> 250 <= c <= 255.
Proof.
  cbv [lookup COMMAND_IMPLS DO DONT WILL WONT SB IAC].
  repeat match goal with
         | |- context [if ?a =? ?b then _ else _] =>
             destruct (Z.eqb_spec a b);
             [split; [intros _; lia|intros _; discriminate]|]
         end.
  split; [intros H; contradiction H; reflexivity|lia].
Qed.

(** A queue on which [parse] returns [MORE] starts with [IAC] and holds
    from two to eight bytes. *)
Lemma parse_more_shape b :
  fst (parse b) = Return MORE ->
  nth_error b 0 = Some IAC /\ 2 <= Bufs.length b < 9.
Proof.
  destruct b as [|b0 [|c rest]];
    try (rewrite parse_too_short by (rewrite ?length_cons, ?length_nil; lia);
         discriminate).
  destruct (Z.eq_dec b0 IAC) as [->|Hb0];
    [|rewrite parse_not_iac by assumption; discriminate].
  pose proof (length_nonneg rest) as Hrest.
  destruct (lookup c COMMAND_IMPLS) as [[|]|] eqn:Hc.
  - destruct rest as [|o rest].
    { intros _. split; [reflexivity|]. rewrite !length_cons, length_nil. lia. }
    pose proof (length_nonneg rest) as Hrest'.
    destruct (lookup o OPTION_IMPLS) as [[|]|] eqn:Ho.
    + rewrite parse_no_args by assumption. discriminate.
    + destruct (Z.eq_dec c SB) as [->|Hsb];
        [|rewrite parse_window_size_other by assumption; discriminate].
      destruct (Z.ltb_spec (Bufs.length rest) 6) as [Hlt|Hge].
      * intros _. split; [reflexivity|]. rewrite !length_cons. lia.
      * destruct rest as [|w1 [|w0 [|h1 [|h0 [|b7 [|b8 rest]]]]]];
          try (rewrite ?length_cons, ?length_nil in Hge; lia).
        rewrite parse_window_size_frame by assumption.
        destruct ((b7 =? IAC) && (b8 =? SE) && (o =? WINDOW_SIZE)); discriminate.
    + rewrite parse_unknown_option by assumption. discriminate.
  - apply command_is_iac in Hc. subst c. rewrite parse_iac_iac. discriminate.
  - rewrite parse_unknown_command by assumption. discriminate.
Qed.

Lemma evolves_invariant (P : Socket -> Prop) s s' :
  (forall b s0, P s0 -> P (set_bufs b s0)) ->
  (forall name arg s0, P s0 -> P (snd (emit name arg s0))) ->
  evolves s s' -> P s -> P s'.
Proof.
  intros Hb He Hev Hs. induction Hev; [assumption|apply Hb|apply He]; assumption.
Qed.

(** X1.  The loop of the ['data'] handler terminates: every turn either
    leaves the loop or takes at least two bytes off the queue, so the handler
    returns or throws after at most as many turns as the queue has bytes, and
    what it returns does not depend on how many more turns it is allowed. *)
Theorem handler_terminates (b : Buffer) (s : Socket) :
  fst (on_data b s) <> Throw FuelExhausted
  /\ (forall f1 f2,
        (List.length (bufs s) < f1)%nat -> (List.length (bufs s) < f2)%nat ->
        data_loop f1 s = data_loop f2 s)
  /\ ((exists r s', forall again, loop_body again s = (r, s'))
      \/ (exists s', (List.length (bufs s') + 2 <= List.length (bufs s))%nat
                     /\ forall again, loop_body again s = again s')).
Proof.
  split; [|split].
  - destruct (on_data_exit b s) as (r & s' & -> & _ & Hr).
    destruct r as [[]|err]; [discriminate|]. cbn [fst]. congruence.
  - intros f1 f2. apply data_loop_fuel.
  - destruct (loop_body_cases s) as [(r & s' & E & _)|(s' & Hlen & _ & E)].
    + left. exists r, s'. exact E.
    + right. exists s'. split; assumption.
Qed.

(** X2.  Between deliveries the queue holds an incomplete frame or nothing:
    when the handler returns, from whatever state, the queue is empty, or it
    starts with [IAC], holds from two to eight bytes, and [parse] returns
    [MORE] on it.  Literal data never stays in the queue. *)
Theorem pending_is_incomplete_frame (b : Buffer) (s s' : Socket)
  (H : on_data b s = (Return tt, s')) :
  bufs s' = []
  \/ (nth_error (bufs s') 0 = Some IAC /\ 2 <= Bufs.length (bufs s') < 9
      /\ parse (bufs s') = (Return MORE, bufs s')).
Proof.
  destruct (on_data_exit b s) as (r & s1 & E & _ & Hr).
  rewrite H in E. injection E as <- <-.
  destruct Hr as [Hr|Hr]; [left; exact Hr|right].
  destruct (parse_more_shape (bufs s')) as [H0 Hlen]; [rewrite Hr; reflexivity|].
  repeat split; try assumption; lia.
Qed.

Lemma pending_is_incomplete_frame_witness :
  let s' := snd (on_data [104; 105; IAC; SB; WINDOW_SIZE; 0; 80] new_Socket) in
  bufs s' = []
  \/ (nth_error (bufs s') 0 = Some IAC /\ 2 <= Bufs.length (bufs s') < 9
      /\ parse (bufs s') = (Return MORE, bufs s')).
Proof.
  exact (pending_is_incomplete_frame
           [104; 105; IAC; SB; WINDOW_SIZE; 0; 80] new_Socket
           (snd (on_data [104; 105; IAC; SB; WINDOW_SIZE; 0; 80] new_Socket))
           eq_refl).
Defined.

(** ** Escaped and literal data *)

Lemma data_events_of b c i w em n :
  data_events (mkSocket b c i w (rev em) n) = data_of em.
Proof.
  unfold data_events, emissions, data_of. cbn [emitted].
  rewrite rev_involutive. reflexivity.
Qed.

(** X3.  Data in which every byte 255 is doubled comes out as it went in:
    for every byte sequence [l], delivering its escaped form to a session
    with nothing pending returns, writes nothing, leaves nothing pending, and
    the payloads of the ['data'] events emitted, put end to end, are [l]. *)
Theorem escaped_data_round_trip (l : list Z) (s : Socket) (Hs : bufs s = []) :
  exists em,
    on_data (escape_iac l) s = (Return tt, grow s [] em)
    /\ List.concat (data_of em) = l
    /\ List.concat (data_events (snd (on_data (escape_iac l) s))) =
       List.concat (data_events s) ++ l.
Proof.
  destruct (on_data_escaped (List.length l) l s (Nat.le_refl _) Hs)
    as (em & E & Hem).
  exists em. split; [exact E|split; [exact Hem|]].
  rewrite E. cbn [snd].
  rewrite data_events_grow, data_events_of, List.concat_app, Hem. reflexivity.
Qed.

Lemma escaped_data_round_trip_witness :
  List.concat (data_events (snd (on_data (escape_iac [1; 255; 2; 255; 255])
                                   new_Socket))) =
  List.concat (data_events new_Socket) ++ [1; 255; 2; 255; 255].
Proof.
  destruct (escaped_data_round_trip [1; 255; 2; 255; 255] new_Socket eq_refl)
    as (em & _ & _ & E). exact E.
Defined.

(** ** Demand gating of data *)





(** ** Frames and errors of the parser *)

Lemma impl_option_named c :
  lookup c COMMAND_IMPLS <> None -> lookup c COMMAND_NAMES <> None.
Proof.
  rewrite option_command_range. intros H.
  assert (E : c = 250 \/ c = 251 \/ c = 252 \/ c = 253 \/ c = 254 \/ c = 255) by lia.
  repeat (destruct E as [ -> | E ]); try subst c; discriminate.
Qed.

Lemma decoder_named o :
  lookup o OPTION_IMPLS <> None -> truthy (lookup o OPTION_NAMES) = true.
Proof.
  intros H. assert (Hd : has_decoder o = true).
  { unfold has_decoder. destruct (lookup o OPTION_IMPLS); [reflexivity|contradiction]. }
  each_decoder Hd; reflexivity.
Qed.

(** X4.  An event that [parse] produces accounts for the bytes it took: the
    frame is the first 2, 3 or 9 bytes of the queue (an escaped [IAC], a
    three-byte frame, a window-size subnegotiation), [buf] holds exactly these
    bytes, the queue is left with exactly the bytes behind them, and the
    command code of the event is the second byte of the queue. *)
Theorem parse_frame_lengths (b : Buffers) (e : Event)
  (H : fst (parse b) = Return (Parsed e)) :
  exists n,
    (n = 2 \/ n = 3 \/ n = 9)%nat /\ (n <= List.length b)%nat
    /\ buf e = Some (firstn n b) /\ snd (parse b) = skipn n b
    /\ commandCode e = nth_error b 1
    /\ (n = 2%nat <-> nth_error b 1 = Some IAC)
    /\ (n = 9%nat -> nth_error b 1 = Some SB /\ nth_error b 2 = Some WINDOW_SIZE).
Proof.
  revert H.
  destruct b as [|b0 [|c rest]];
    try (rewrite parse_too_short by (rewrite ?length_cons, ?length_nil; lia);
         discriminate).
  destruct (Z.eq_dec b0 IAC) as [->|Hb0];
    [|rewrite parse_not_iac by assumption; discriminate].
  destruct (lookup c COMMAND_IMPLS) as [[|]|] eqn:Hc.
  - assert (Hne : c <> IAC).
    { intros ->. discriminate Hc. }
    destruct rest as [|o rest]; [rewrite parse_option_more by assumption; discriminate|].
    assert (Three : parse (IAC :: c :: o :: rest) =
                    (Return (Parsed (negotiation_event c o)), rest) ->
                    fst (parse (IAC :: c :: o :: rest)) = Return (Parsed e) ->
                    exists n,
                      (n = 2 \/ n = 3 \/ n = 9)%nat
                      /\ (n <= List.length (IAC :: c :: o :: rest))%nat
                      /\ buf e = Some (firstn n (IAC :: c :: o :: rest))
                      /\ snd (parse (IAC :: c :: o :: rest)) =
                         skipn n (IAC :: c :: o :: rest)
                      /\ commandCode e = nth_error (IAC :: c :: o :: rest) 1
                      /\ (n = 2%nat <-> nth_error (IAC :: c :: o :: rest) 1 = Some IAC)
                      /\ (n = 9%nat -> nth_error (IAC :: c :: o :: rest) 1 = Some SB
                                       /\ nth_error (IAC :: c :: o :: rest) 2
                                          = Some WINDOW_SIZE)).
    { intros -> H. injection H as <-. exists 3%nat. cbn [List.length].
      repeat split; try reflexivity; try lia; try (right; left; reflexivity);
        intros H; try discriminate H. cbn in H. congruence. }
    destruct (lookup o OPTION_IMPLS) as [[|]|] eqn:Ho.
    + apply Three. apply parse_no_args; assumption.
    + destruct (Z.eq_dec c SB) as [->|Hsb];
        [|apply Three; apply parse_window_size_other; assumption].
      destruct rest as [|w1 [|w0 [|h1 [|h0 [|b7 [|b8 rest]]]]]];
        try (rewrite parse_window_size_more
              by (try assumption; rewrite ?length_cons, ?length_nil; lia);
             discriminate).
      rewrite parse_window_size_frame by assumption.
      apply decoder_is_window_size in Ho. subst o.
      destruct ((b7 =? IAC) && (b8 =? SE) && (WINDOW_SIZE =? WINDOW_SIZE));
        [|discriminate].
      intros H. injection H as <-. exists 9%nat. cbn [List.length].
      repeat split; try reflexivity; try lia; try (right; right; reflexivity);
        intros H; discriminate H.
    + rewrite parse_unknown_option by assumption. discriminate.
  - apply command_is_iac in Hc. subst c. rewrite parse_iac_iac.
    intros H. injection H as <-. exists 2%nat. cbn [List.length].
    repeat split; try reflexivity; try lia; try (left; reflexivity);
      intros H; discriminate H.
  - rewrite parse_unknown_command by assumption. discriminate.
Qed.

Lemma parse_frame_lengths_witness :
  exists n,
    (n = 2 \/ n = 3 \/ n = 9)%nat /\ (n <= 5)%nat
    /\ buf (negotiation_event WILL ECHO) =
       Some (firstn n [IAC; WILL; ECHO; 104; 105])
    /\ snd (parse [IAC; WILL; ECHO; 104; 105]) =
       skipn n [IAC; WILL; ECHO; 104; 105]
    /\ commandCode (negotiation_event WILL ECHO) = Some WILL
    /\ (n = 2%nat <-> Some WILL = Some IAC)
    /\ (n = 9%nat -> Some WILL = Some SB /\ Some ECHO = Some WINDOW_SIZE).
Proof.
  exact (parse_frame_lengths [IAC; WILL; ECHO; 104; 105]
           (negotiation_event WILL ECHO) eq_refl).
Defined.

(** X5.  Every event that [parse] produces has a command name, and every
    event with an option code has a non-empty option name (the condition
    [event.option] of the handler and of [_handleOptions] holds for it); the
    only events without option are those of a doubled [IAC]. *)
Theorem parsed_events_are_named (b : Buffers) (e : Event)
  (H : fst (parse b) = Return (Parsed e)) :
  command e <> None
  /\ (optionCode e <> None -> truthy (option_name e) = true)
  /\ (optionCode e = None <-> commandCode e = Some IAC)
  /\ (optionCode e = None -> data e = Some [255]).
Proof.
  revert H.
  destruct b as [|b0 [|c rest]];
    try (rewrite parse_too_short by (rewrite ?length_cons, ?length_nil; lia);
         discriminate).
  destruct (Z.eq_dec b0 IAC) as [->|Hb0];
    [|rewrite parse_not_iac by assumption; discriminate].
  destruct (lookup c COMMAND_IMPLS) as [[|]|] eqn:Hc.
  - assert (Hne : c <> IAC) by (intros ->; discriminate Hc).
    assert (Hname : lookup c COMMAND_NAMES <> None)
      by (apply impl_option_named; rewrite Hc; discriminate).
    destruct rest as [|o rest]; [rewrite parse_option_more by assumption; discriminate|].
    assert (Three : lookup o OPTION_IMPLS <> None ->
                    negotiation_event c o = e ->
                    command e <> None
                    /\ (optionCode e <> None -> truthy (option_name e) = true)
                    /\ (optionCode e = None <-> commandCode e = Some IAC)
                    /\ (optionCode e = None -> data e = Some [255])).
    { intros Ho <-. cbn. repeat split; try assumption; try discriminate.
      - intros _. apply decoder_named. exact Ho.
      - intros H. congruence. }
    destruct (lookup o OPTION_IMPLS) as [[|]|] eqn:Ho.
    + rewrite parse_no_args by assumption. intros H. injection H as H.
      apply Three; [discriminate|exact H].
    + destruct (Z.eq_dec c SB) as [->|Hsb].
      * destruct rest as [|w1 [|w0 [|h1 [|h0 [|b7 [|b8 rest]]]]]];
          try (rewrite parse_window_size_more
                by (try assumption; rewrite ?length_cons, ?length_nil; lia);
               discriminate).
        rewrite parse_window_size_frame by assumption.
        apply decoder_is_window_size in Ho. subst o.
        destruct ((b7 =? IAC) && (b8 =? SE) && (WINDOW_SIZE =? WINDOW_SIZE));
          [|discriminate].
        intros H. injection H as <-. cbn.
        repeat split; try discriminate.
      * rewrite parse_window_size_other by assumption. intros H. injection H as H.
        apply Three; [discriminate|exact H].
    + rewrite parse_unknown_option by assumption. discriminate.
  - apply command_is_iac in Hc. subst c. rewrite parse_iac_iac.
    intros H. injection H as <-. cbn. repeat split; try discriminate.
    intros H. contradiction H. reflexivity.
  - rewrite parse_unknown_command by assumption. discriminate.
Qed.

Lemma parsed_events_are_named_witness :
  command (negotiation_event DONT LINEMODE) <> None
  /\ (optionCode (negotiation_event DONT LINEMODE) <> None ->
      truthy (option_name (negotiation_event DONT LINEMODE)) = true)
  /\ (optionCode (negotiation_event DONT LINEMODE) = None <->
      commandCode (negotiation_event DONT LINEMODE) = Some IAC)
  /\ (optionCode (negotiation_event DONT LINEMODE) = None ->
      data (negotiation_event DONT LINEMODE) = Some [255]).
Proof.
  exact (parsed_events_are_named [IAC; DONT; LINEMODE]
           (negotiation_event DONT LINEMODE) eq_refl).
Defined.

(** X6.  A command byte other than [DO], [DONT], [WILL], [WONT], [SB] and
    [IAC] has no handler: [parse] throws a [TypeError] on it and leaves the
    queue as it was, also for the commands that have a name ([SE], [NOP],
    ..., [GA]).  In a session the literal bytes before the frame are emitted,
    then the handler throws and the frame stays in the queue. *)
Theorem unknown_command_throws (c : Z) (d rest : list Z) (s : Socket)
  (Hc : ~ 250 <= c <= 255) (Hd : iac_free d = true) (Hs : bufs s = []) :
  parse (IAC :: c :: rest) = (Throw TypeError, IAC :: c :: rest)
  /\ on_data (d ++ IAC :: c :: rest) s =
     (Throw TypeError, set_bufs (IAC :: c :: rest) (after_data d s))
  /\ (240 <= c <= 249 -> lookup c COMMAND_NAMES <> None).
Proof.
  assert (Hl : lookup c COMMAND_IMPLS = None).
  { destruct (lookup c COMMAND_IMPLS) eqn:E; [|reflexivity].
    exfalso. apply Hc. apply option_command_range. rewrite E. discriminate. }
  split; [apply parse_unknown_command; exact Hl|]. split.
  - rewrite on_data_eq, Hs. cbn [app].
    rewrite (data_loop_frame _ _ d c rest) by (assumption || reflexivity).
    rewrite parse_unknown_command by exact Hl. cbv zeta.
    f_equal. destruct d; reflexivity.
  - intros H.
    assert (E : c = 240 \/ c = 241 \/ c = 242 \/ c = 243 \/ c = 244 \/ c = 245
                \/ c = 246 \/ c = 247 \/ c = 248 \/ c = 249) by lia.
    repeat (destruct E as [ -> | E ]); try subst c; discriminate.
Qed.

Lemma unknown_command_throws_witness :
  on_data ([104; 105] ++ IAC :: NOP :: [106]) new_Socket =
  (Throw TypeError, set_bufs (IAC :: NOP :: [106]) (after_data [104; 105] new_Socket)).
Proof.
  exact (proj1 (proj2 (unknown_command_throws NOP [104; 105] [106] new_Socket
                         ltac:(unfold NOP; lia) eq_refl eq_refl))).
Defined.

(** X7.  A window-size frame with a wrong marker is lost: when byte 7 is not
    [IAC] or byte 8 is not [SE], the nine bytes have been taken off the queue
    by the time the assertion fails, so the handler throws with only the
    bytes behind the frame left in the queue, and no event is emitted. *)
Theorem malformed_window_size_frame_lost
  (w1 w0 h1 h0 b7 b8 : Z) (rest : list Z) (s : Socket)
  (Hbad : b7 <> IAC \/ b8 <> SE) (Hs : bufs s = []) :
  parse (IAC :: SB :: WINDOW_SIZE :: w1 :: w0 :: h1 :: h0 :: b7 :: b8 :: rest) =
    (Throw AssertionError, rest)
  /\ on_data (IAC :: SB :: WINDOW_SIZE :: w1 :: w0 :: h1 :: h0 :: b7 :: b8 :: rest) s =
    (Throw AssertionError, set_bufs rest s).
Proof.
  assert (P : parse (IAC :: SB :: WINDOW_SIZE :: w1 :: w0 :: h1 :: h0 :: b7 :: b8 :: rest) =
              (Throw AssertionError, rest)).
  { rewrite parse_window_size_frame by reflexivity.
    destruct (Z.eqb_spec b7 IAC), (Z.eqb_spec b8 SE); cbn [andb]; try reflexivity.
    destruct Hbad; contradiction. }
  split; [exact P|].
  rewrite on_data_eq, Hs. cbn [app].
  rewrite (data_loop_frame _ _ [] SB
             (WINDOW_SIZE :: w1 :: w0 :: h1 :: h0 :: b7 :: b8 :: rest))
    by reflexivity.
  rewrite P. reflexivity.
Qed.

Lemma malformed_window_size_frame_lost_witness :
  on_data [IAC; SB; WINDOW_SIZE; 0; 80; 0; 24; IAC; NOP; 104] new_Socket =
  (Throw AssertionError, set_bufs [104] new_Socket).
Proof.
  apply (malformed_window_size_frame_lost 0 80 0 24 IAC NOP [104] new_Socket);
    [right; discriminate | reflexivity].
Defined.

(** ** What the option sets write *)

Lemma handle_writes_refusal this e s :
  this = options_local \/ this = options_remote ->
  exists w, _handleOptions this e s = (Return tt, grow s w [])
            /\ forallb is_refusal w = true /\ (List.length w <= 1)%nat.
Proof.
  intros Hthis. unfold _handleOptions.
  destruct (truthy (option_name e));
    [|exists []; rewrite grow_nil; repeat split; cbn; lia].
  destruct (strict_eq (commandCode e) (_receiveDisable this));
    [exists []; rewrite grow_nil; repeat split; cbn; lia|].
  destruct (strict_eq (commandCode e) (_receiveEnable this));
    [|exists []; rewrite grow_nil; repeat split; cbn; lia].
  eexists [_]. split; [reflexivity|].
  destruct Hthis as [->| ->]; split; cbn; try reflexivity; lia.
Qed.

Lemma emit_writes_refusal name arg s :
  exists w, emit name arg s = (Return tt, grow s w [Emit name arg])
            /\ forallb is_refusal w = true.
Proof.
  unfold emit, bind, modify.
  change (add_emitted (Emit name arg) s) with (grow s [] [Emit name arg]).
  destruct (String.eqb name "event"); [|exists []; split; reflexivity].
  destruct arg as [e|d]; unfold option_listeners, bind;
    [|exists []; split; reflexivity].
  match goal with
  | |- context [_handleOptions ?o ?e ?s] =>
      destruct (handle_writes_refusal o e s (or_introl eq_refl))
        as (w1 & -> & H1 & _)
  end.
  match goal with
  | |- context [_handleOptions ?o ?e ?s] =>
      destruct (handle_writes_refusal o e s (or_intror eq_refl))
        as (w2 & -> & H2 & _)
  end.
  exists (w1 ++ w2). rewrite !grow_grow, forallb_app, H1, H2. split; reflexivity.
Qed.

(** X8.  The session never agrees to an option: whatever bytes are
    delivered, in whatever state, every chunk that the ['data'] handler hands
    to the output is a three-byte [Buffer] [IAC WONT o] or [IAC DONT o], and
    what was written before stays as it was.  The handler leaves [convertLF],
    the input and the listeners alone. *)
Theorem never_accepts (b : Buffer) (s : Socket) :
  (exists w, written (snd (on_data b s)) = written s ++ w
             /\ forallb is_refusal w = true)
  /\ convertLF (snd (on_data b s)) = convertLF s
  /\ input (snd (on_data b s)) = input s
  /\ data_listeners (snd (on_data b s)) = data_listeners s.
Proof.
  destruct (on_data_exit b s) as (r & s' & -> & Hev & _). cbn [snd].
  apply (evolves_invariant
           (fun s' => (exists w, written s' = written s ++ w
                                 /\ forallb is_refusal w = true)
                      /\ convertLF s' = convertLF s /\ input s' = input s
                      /\ data_listeners s' = data_listeners s) s s');
    [| |exact Hev|].
  - intros b0 s0 H. exact H.
  - intros name arg s0 ((w & Hw & Hr) & Hc & Hi & Hl).
    destruct (emit_writes_refusal name arg s0) as (w' & -> & Hr'). cbn [snd].
    split; [|repeat split; assumption].
    exists (w ++ w'). rewrite written_grow, Hw, forallb_app, Hr, Hr', app_assoc.
    split; reflexivity.
  - split; [|repeat split]. exists []. rewrite app_nil_r. split; reflexivity.
Qed.

(** X9.  A disable request is never answered: for every option with a
    decoder, [IAC DONT o] and [IAC WONT o] delivered to a session with nothing
    pending are broadcast as events and nothing is written.  An enable request
    is answered by one option set only: [DO] by the local one, [WILL] by the
    remote one, with a single chunk. *)
Theorem disable_requests_ignored (o : Z) (s : Socket)
  (Ho : has_decoder o = true) (Hs : bufs s = []) :
  on_data [IAC; DONT; o] s =
    (Return tt, grow s [] (broadcast (negotiation_event DONT o)))
  /\ on_data [IAC; WONT; o] s =
    (Return tt, grow s [] (broadcast (negotiation_event WONT o)))
  /\ (forall e s0, exists w,
        option_listeners (AEvent e) s0 = (Return tt, grow s0 w [])
        /\ (List.length w <= 1)%nat /\ forallb is_refusal w = true).
Proof.
  split; [|split].
  - empty_queue s Hs. each_decoder Ho; vm_compute; reflexivity.
  - empty_queue s Hs. each_decoder Ho; vm_compute; reflexivity.
  - intros e s0. unfold option_listeners, _handleOptions, bind.
    destruct (truthy (option_name e));
      [|exists []; rewrite grow_nil; repeat split; cbn; lia].
    destruct (commandCode e) as [c|];
      [|exists []; rewrite grow_nil; repeat split; cbn; lia].
    cbn [strict_eq options_local options_remote new_OptionSet
         _receiveDisable _receiveEnable _sendDisable ret].
    destruct (Z.eqb_spec c DONT) as [->|H1].
    { exists []. rewrite grow_nil. cbn. repeat split; lia. }
    destruct (Z.eqb_spec c DO) as [->|H2].
    { eexists [_]. cbn. repeat split; lia. }
    cbn [ret]. destruct (Z.eqb_spec c WONT) as [->|H3].
    { exists []. rewrite grow_nil. cbn. repeat split; lia. }
    destruct (Z.eqb_spec c WILL) as [->|H4].
    { eexists [_]. cbn. repeat split; lia. }
    exists []. rewrite grow_nil. cbn. repeat split; lia.
Qed.

Lemma disable_requests_ignored_witness :
  on_data [IAC; DONT; ECHO] new_Socket =
  (Return tt, grow new_Socket [] (broadcast (negotiation_event DONT ECHO))).
Proof.
  exact (proj1 (disable_requests_ignored ECHO new_Socket eq_refl eq_refl)).
Defined.

(** ** Subnegotiations *)

(** X10.  A window-size frame that arrives in two pieces, cut anywhere
    behind its second byte, is put together again: the first delivery is
    suspended, emits and writes nothing and leaves exactly its bytes pending,
    and the two deliveries together end as the delivery of the nine bytes at
    once. *)
Theorem window_size_split_anywhere
  (k : nat) (w1 w0 h1 h0 : Z) (s : Socket)
  (Hk : (2 <= k <= 8)%nat) (Hs : bufs s = []) :
  let frame := [IAC; SB; WINDOW_SIZE; w1; w0; h1; h0; IAC; SE] in
  on_data (firstn k frame) s = (Return tt, set_bufs (firstn k frame) s)
  /\ (on_data (firstn k frame) ;; on_data (skipn k frame)) s = on_data frame s.
Proof.
  intros frame. subst frame. empty_queue s Hs.
  assert (E : (k = 2 \/ k = 3 \/ k = 4 \/ k = 5 \/ k = 6 \/ k = 7 \/ k = 8)%nat)
    by lia.
  repeat (destruct E as [ -> | E ]); try subst k; split; vm_compute; reflexivity.
Qed.

Lemma window_size_split_anywhere_witness :
  (on_data [IAC; SB; WINDOW_SIZE; 0; 80] ;; on_data [0; 24; IAC; SE]) new_Socket =
  on_data [IAC; SB; WINDOW_SIZE; 0; 80; 0; 24; IAC; SE] new_Socket.
Proof.
  exact (proj2 (window_size_split_anywhere 5 0 80 0 24 new_Socket
                  ltac:(lia) eq_refl)).
Defined.

Lemma dispatch_subnegotiation o s :
  lookup o OPTION_IMPLS = Some Impl_NO_ARGS ->
  dispatch (negotiation_event SB o) s =
  (Return tt, grow s [] (broadcast (negotiation_event SB o))).
Proof.
  intros Ho. assert (Hd : has_decoder o = true)
    by (unfold has_decoder; rewrite Ho; reflexivity).
  destruct s. each_decoder Hd; reflexivity.
Qed.

(** X11.  Only the window-size option has a subnegotiation decoder.  For
    every other option with a decoder, [IAC SB o] alone is taken as a complete
    frame; the literal payload behind it is emitted as data, and the closing
    [IAC SE] makes the handler throw a [TypeError], with [IAC SE] left in the
    queue. *)
Theorem subnegotiation_of_other_option (o : Z) (payload : list Z) (s : Socket)
  (Ho : lookup o OPTION_IMPLS = Some Impl_NO_ARGS)
  (Hp : iac_free payload = true) (Hs : bufs s = []) :
  on_data (IAC :: SB :: o :: payload ++ [IAC; SE]) s =
  (Throw TypeError,
   set_bufs [IAC; SE]
     (after_data payload
        (grow s [] (broadcast (negotiation_event SB o))))).
Proof.
  rewrite (on_data_head_frame s SB (o :: payload ++ [IAC; SE])
             (negotiation_event SB o) (payload ++ [IAC; SE]) Hs)
    by (apply parse_no_args; [reflexivity|exact Ho]).
  unfold bind. rewrite (dispatch_subnegotiation o s Ho).
  assert (Hs1 : bufs (grow s [] (broadcast (negotiation_event SB o))) = [])
    by exact Hs.
  rewrite on_data_eq, Hs1. cbn [app].
  rewrite (data_loop_frame _ _ payload SE []) by (assumption || reflexivity).
  rewrite parse_unknown_command by reflexivity. cbv zeta.
  f_equal. destruct payload; reflexivity.
Qed.

Lemma subnegotiation_of_other_option_witness :
  on_data (IAC :: SB :: TERMINAL_TYPE :: [0; 120] ++ [IAC; SE]) new_Socket =
  (Throw TypeError,
   set_bufs [IAC; SE]
     (after_data [0; 120]
        (grow new_Socket [] (broadcast (negotiation_event SB TERMINAL_TYPE))))).
Proof.
  exact (subnegotiation_of_other_option TERMINAL_TYPE [0; 120] new_Socket
           eq_refl eq_refl eq_refl).
Defined.

(** ** Order and chunking *)

Lemma on_data_frame_alone s c tl e :
  bufs s = [] ->
  parse (IAC :: c :: tl) = (Return (Parsed e), []) ->
  on_data (IAC :: c :: tl) s = dispatch e s.
Proof.
  intros Hs Hp. rewrite (on_data_head_frame s c tl e [] Hs Hp).
  unfold bind. destruct (dispatch_run e s) as (w & em & ->).
  apply on_data_nil. exact Hs.
Qed.

(** X12.  What one delivery holds is handled in the order of the bytes:
    literal bytes in front of an [IAC] that has a byte behind it, whatever
    that byte and the bytes after it are (a negotiation, a doubled [IAC], a
    subnegotiation, a command without handler), are handled as a delivery of
    their own before the rest is looked at; and a complete frame at the head
    of a delivery (a negotiation, a doubled [IAC], a well-formed window-size
    frame) is handled as if it had been delivered alone, before the bytes
    behind it. *)
Theorem delivery_in_stream_order
  (c o w1 w0 h1 h0 : Z) (d rest : list Z) (s : Socket)
  (Hc : negotiation_command c = true) (Ho : has_decoder o = true)
  (Hd : iac_free d = true) (Hs : bufs s = []) :
  (forall c' tl,
     on_data (d ++ IAC :: c' :: tl) s =
     (on_data d ;; on_data (IAC :: c' :: tl)) s)
  /\ on_data (IAC :: c :: o :: rest) s = (on_data [IAC; c; o] ;; on_data rest) s
  /\ on_data (IAC :: IAC :: rest) s = (on_data [IAC; IAC] ;; on_data rest) s
  /\ on_data ([IAC; SB; WINDOW_SIZE; w1; w0; h1; h0; IAC; SE] ++ rest) s =
     (on_data [IAC; SB; WINDOW_SIZE; w1; w0; h1; h0; IAC; SE] ;; on_data rest) s.
Proof.
  split; [intros c' tl; apply on_data_literal_then_frame; assumption|].
  assert (Hcmd : lookup c COMMAND_IMPLS = Some Impl_option /\ c <> SB)
    by (each_command Hc; split; (reflexivity || discriminate)).
  destruct Hcmd as [Hcmd Hsb].
  assert (Hparse : forall r, parse (IAC :: c :: o :: r) =
                             (Return (Parsed (negotiation_event c o)), r)).
  { intros r. unfold has_decoder in Ho.
    destruct (lookup o OPTION_IMPLS) as [[|]|] eqn:E; [| |discriminate Ho].
    - apply parse_no_args; assumption.
    - apply parse_window_size_other; assumption. }
  split; [|split].
  - rewrite (on_data_head_frame s c (o :: rest) _ rest Hs (Hparse rest)).
    unfold bind at 2.
    rewrite (on_data_frame_alone s c [o] _ Hs (Hparse [])). reflexivity.
  - rewrite (on_data_head_frame s IAC rest _ rest Hs (parse_iac_iac rest)).
    unfold bind at 2.
    rewrite (on_data_frame_alone s IAC [] _ Hs (parse_iac_iac [])). reflexivity.
  - cbn [app].
    assert (Hws : forall r,
               parse (IAC :: SB :: WINDOW_SIZE :: w1 :: w0 :: h1 :: h0 :: IAC :: SE :: r) =
               (Return (Parsed (resize_event
                                  [IAC; SB; WINDOW_SIZE; w1; w0; h1; h0; IAC; SE]
                                  (w1 * 256 + w0) (h1 * 256 + h0))), r)).
    { intros r. rewrite parse_window_size_frame by reflexivity. reflexivity. }
    rewrite (on_data_head_frame s SB _ _ rest Hs (Hws rest)).
    unfold bind at 2.
    rewrite (on_data_frame_alone s SB _ _ Hs (Hws [])). reflexivity.
Qed.

Lemma delivery_in_stream_order_witness :
  on_data ([104; 105] ++ IAC :: IAC :: [106]) new_Socket =
  (on_data [104; 105] ;; on_data (IAC :: IAC :: [106])) new_Socket.
Proof.
  exact (proj1 (delivery_in_stream_order DO ECHO 0 80 0 24 [104; 105]
                  [] new_Socket eq_refl eq_refl eq_refl eq_refl) IAC [106]).
Defined.

Lemma feed_literal cs :
  forall s, bufs s = [] -> forallb iac_free cs = true ->
  exists em,
    feed cs s = (Return tt, grow s [] em)
    /\ List.concat (data_of em) = List.concat cs.
Proof.
  induction cs as [|c cs IH]; intros s Hs Hcs.
  - exists []. rewrite grow_nil. split; reflexivity.
  - cbn [forallb] in Hcs. apply andb_true_iff in Hcs as [Hc Hcs].
    cbn [feed]. unfold bind. rewrite (on_data_literal c s Hs Hc).
    assert (Hs1 : bufs (after_data c s) = []) by (destruct c; exact Hs).
    destruct (IH (after_data c s) Hs1 Hcs) as (em & -> & Hem).
    exists ((match c with [] => [] | _ :: _ => [Emit "data" (AData c)] end) ++ em).
    split.
    + f_equal. destruct c; cbn [after_data]; rewrite ?grow_grow; reflexivity.
    + unfold data_of in *. rewrite flat_map_app, List.concat_app, Hem.
      destruct c; cbn; rewrite ?app_nil_r; reflexivity.
Qed.

(** X13.  Literal data passes through whatever its chunking: for chunks
    without [IAC] delivered one after the other to a session with nothing
    pending, every delivery returns, nothing is written and nothing stays
    pending, each chunk that is not empty is emitted as one ['data'] event,
    and the payloads put end to end are the bytes of the chunks, as for the
    delivery of all the bytes in one chunk. *)
Theorem literal_data_passes_through (cs : list Buffer) (s : Socket)
  (Hs : bufs s = []) (Hcs : forallb iac_free cs = true) :
  exists em,
    feed cs s = (Return tt, grow s [] em)
    /\ data_of em = filter (fun c => negb (Nat.eqb (List.length c) 0)) cs
    /\ List.concat (data_of em) = List.concat cs
    /\ List.concat (data_events (snd (feed cs s))) =
       List.concat (data_events (snd (on_data (List.concat cs) s))).
Proof.
  assert (Shape : forall cs s, bufs s = [] -> forallb iac_free cs = true ->
            exists em,
              feed cs s = (Return tt, grow s [] em)
              /\ data_of em = filter (fun c => negb (Nat.eqb (List.length c) 0)) cs).
  { clear. induction cs as [|c cs IH]; intros s Hs Hcs.
    - exists []. rewrite grow_nil. split; reflexivity.
    - cbn [forallb] in Hcs. apply andb_true_iff in Hcs as [Hc Hcs].
      cbn [feed]. unfold bind. rewrite (on_data_literal c s Hs Hc).
      assert (Hs1 : bufs (after_data c s) = []) by (destruct c; exact Hs).
      destruct (IH (after_data c s) Hs1 Hcs) as (em & -> & Hem).
      exists ((match c with [] => [] | _ :: _ => [Emit "data" (AData c)] end) ++ em).
      split.
      + f_equal. destruct c; cbn [after_data]; rewrite ?grow_grow; reflexivity.
      + unfold data_of in *. rewrite flat_map_app, Hem.
        destruct c; reflexivity. }
  destruct (Shape cs s Hs Hcs) as (em & E & Hem).
  destruct (feed_literal cs s Hs Hcs) as (em' & E' & Hem').
  rewrite E in E'. injection E' as E'.
  assert (em' = em) as ->.
  { apply app_inv_tail in E'. apply (f_equal (@rev emission)) in E'.
    rewrite !rev_involutive in E'. symmetry. exact E'. }
  exists em. split; [exact E|split; [exact Hem|split; [exact Hem'|]]].
  rewrite E. cbn [snd]. rewrite data_events_grow, data_events_of, List.concat_app, Hem'.
  assert (Hall : iac_free (List.concat cs) = true).
  { clear - Hcs. induction cs as [|c cs IH]; [reflexivity|].
    cbn [forallb] in Hcs. apply andb_true_iff in Hcs as [Hc Hcs].
    cbn [List.concat]. unfold iac_free in *. rewrite forallb_app, Hc, IH by exact Hcs.
    reflexivity. }
  rewrite (on_data_literal _ s Hs Hall). cbn [snd].
  rewrite concat_data_after. reflexivity.
Qed.

Lemma literal_data_passes_through_witness :
  exists em,
    feed [[104; 105]; []; [106]] new_Socket = (Return tt, grow new_Socket [] em)
    /\ data_of em = [[104; 105]; [106]].
Proof.
  destruct (literal_data_passes_through [[104; 105]; []; [106]] new_Socket
              eq_refl eq_refl) as (em & E & H & _).
  exists em. split; [exact E|exact H].
Defined.

(** ** The normal form of what [write] hands on *)

Lemma no_lone_lf_head p d r :
  d <> LF -> no_lone_lf p (d :: r) = no_lone_lf false (d :: r).
Proof.
  intros Hd. cbn [no_lone_lf]. destruct (Z.eqb_spec d LF); [contradiction|].
  reflexivity.
Qed.

Lemma replace_no_lone_lf n :
  forall s p, (List.length s <= n)%nat ->
  no_lone_lf p (replace_newlines s) = true.
Proof.
  induction n as [|n IH]; intros s p Hn.
  { destruct s; [reflexivity|cbn in Hn; lia]. }
  destruct s as [|c r]; [reflexivity|].
  cbn [List.length] in Hn. cbn [replace_newlines].
  destruct (Z.eqb_spec c CR) as [->|Hcr].
  - destruct r as [|d r']; [reflexivity|].
    cbn [List.length] in Hn.
    destruct (Z.eqb_spec d LF) as [->|Hlf].
    + cbn [no_lone_lf]. change (CR =? LF) with false.
      change (LF =? LF) with true. change (CR =? CR) with true.
      change (LF =? CR) with false. cbn [andb].
      apply IH. lia.
    + cbn [no_lone_lf]. change (CR =? LF) with false. cbn [andb].
      apply IH. cbn [List.length]. lia.
  - destruct (Z.eqb_spec c LF) as [->|Hlf].
    + cbn [no_lone_lf]. change (CR =? LF) with false.
      change (LF =? LF) with true. change (CR =? CR) with true.
      change (LF =? CR) with false. cbn [andb].
      apply IH. lia.
    + cbn [no_lone_lf]. destruct (Z.eqb_spec c LF); [contradiction|].
      cbn [andb]. apply IH. lia.
Qed.

Lemma replace_fixes n :
  forall t, (List.length t <= n)%nat ->
  no_lone_lf false t = true -> replace_newlines t = t.
Proof.
  induction n as [|n IH]; intros t Hn H.
  { destruct t; [reflexivity|cbn in Hn; lia]. }
  destruct t as [|c r]; [reflexivity|].
  cbn [List.length] in Hn. cbn [replace_newlines].
  cbn [no_lone_lf] in H.
  destruct (Z.eqb_spec c LF) as [->|Hlf]; [discriminate H|].
  cbn [andb] in H.
  destruct (Z.eqb_spec c CR) as [->|Hcr].
  - destruct r as [|d r']; [reflexivity|].
    cbn [List.length] in Hn.
    destruct (Z.eqb_spec d LF) as [->|Hd].
    + cbn [no_lone_lf] in H. change (LF =? LF) with true in H.
      change (LF =? CR) with false in H. cbn [andb] in H.
      rewrite (IH r') by (lia || exact H). reflexivity.
    + rewrite (no_lone_lf_head true d r' Hd) in H.
      rewrite (IH (d :: r')) by (cbn [List.length]; lia || exact H).
      reflexivity.
  - rewrite (IH r) by (lia || exact H). reflexivity.
Qed.

(** X14.  What [write], called with one argument, hands to the transport
    with [convertLF] set is in
    normal form: in the string written no LF stands without a CR before it,
    writing this string again hands on the same string, and the strings that
    [write] hands on unchanged are exactly those without a lone LF. *)
Theorem write_normal_form (c : chunk) (s : Socket)
  (Hc : convertLF s = true) :
  let t := replace_newlines (toString_utf8 c) in
  write c s = (Return tt, grow s [JString t] [])
  /\ no_lone_lf false t = true
  /\ write (JString t) s = (Return tt, grow s [JString t] [])
  /\ (forall u, written (snd (write (JString u) s)) =
                written s ++ [JString u]
                <-> no_lone_lf false u = true).
Proof.
  intros t. subst t.
  assert (N : forall u, no_lone_lf false (replace_newlines u) = true)
    by (intros u; apply (replace_no_lone_lf (List.length u)); lia).
  split; [apply write_run; exact Hc|].
  split; [apply N|].
  split.
  { rewrite write_run by exact Hc. cbn [toString_utf8].
    rewrite (replace_fixes _ _ (le_n _) (N _)). reflexivity. }
  intros u. rewrite write_run by exact Hc. cbn [snd toString_utf8].
  rewrite written_grow. split.
  - intros H. apply app_inv_head in H. injection H as H.
    rewrite <- H. apply N.
  - intros H. rewrite (replace_fixes _ _ (le_n _) H). reflexivity.
Qed.

Lemma write_normal_form_witness :
  write (JString [104; LF; CR; LF; 105]) new_Socket =
  (Return tt, grow new_Socket [JString [104; CR; LF; CR; LF; 105]] []).
Proof.
  apply (write_normal_form (JString [104; LF; CR; LF; 105]) new_Socket).
  reflexivity.
Defined.

(** ** Text through the session *)

Lemma well_formed_iac_free fuel :
  forall bs, UTF8.well_formed fuel bs = true -> iac_free bs = true.
Proof.
  unfold iac_free.
  induction fuel as [|fuel IH]; intros bs H.
  { destruct bs; [reflexivity|discriminate H]. }
  destruct bs as [|b0 r0]; [reflexivity|].
  cbn [UTF8.well_formed] in H.
  assert (Hc : forall b, UTF8.continuation b = true -> negb (b =? IAC) = true).
  { intros b Hb. unfold UTF8.continuation in Hb.
    apply andb_true_iff in Hb as [_ Hb]. apply Z.leb_le in Hb.
    destruct (Z.eqb_spec b IAC) as [->|]; [unfold IAC in Hb; lia|reflexivity]. }
  assert (Hb : forall lo hi b, hi <= 244 -> UTF8.between lo hi b = true ->
                               negb (b =? IAC) = true).
  { intros lo hi b Hhi Hb. unfold UTF8.between in Hb.
    apply andb_true_iff in Hb as [_ Hb]. apply Z.leb_le in Hb.
    destruct (Z.eqb_spec b IAC) as [->|]; [unfold IAC in Hb; lia|reflexivity]. }
  assert (Hsec : forall b1, UTF8.between (UTF8.second_lo b0) (UTF8.second_hi b0) b1 = true ->
                            negb (b1 =? IAC) = true).
  { intros b1. apply Hb. unfold UTF8.second_hi.
    destruct (b0 =? 237); [lia|]. destruct (b0 =? 244); lia. }
  destruct (UTF8.between 0 127 b0) eqn:E0.
  { cbn [forallb]. rewrite (Hb 0 127 b0) by (lia || exact E0).
    apply IH. exact H. }
  destruct (UTF8.between 194 223 b0) eqn:E1.
  { destruct r0 as [|b1 r1]; [discriminate H|].
    apply andb_true_iff in H as [H1 H].
    cbn [forallb]. rewrite (Hb 194 223 b0) by (lia || exact E1).
    rewrite (Hc b1 H1). apply IH. exact H. }
  destruct (UTF8.between 224 239 b0) eqn:E2.
  { destruct r0 as [|b1 [|b2 r2]]; try discriminate H.
    apply andb_true_iff in H as [H H3].
    apply andb_true_iff in H as [H1 H2].
    cbn [forallb]. rewrite (Hb 224 239 b0) by (lia || exact E2).
    rewrite (Hsec b1 H1), (Hc b2 H2). apply IH. exact H3. }
  destruct (UTF8.between 240 244 b0) eqn:E3; [|discriminate H].
  destruct r0 as [|b1 [|b2 [|b3 r3]]]; try discriminate H.
  apply andb_true_iff in H as [H H4].
  apply andb_true_iff in H as [H H3].
  apply andb_true_iff in H as [H1 H2].
  cbn [forallb]. rewrite (Hb 240 244 b0) by (lia || exact E3).
  rewrite (Hsec b1 H1), (Hc b2 H2), (Hc b3 H3). apply IH. exact H4.
Qed.

(** X15.  Text never collides with the protocol: a chunk of well-formed
    UTF-8 holds no [IAC], so a session with nothing pending emits it whole as
    one ['data'] event, writes no reply and keeps nothing; and when the
    payload is written back through [write] with [convertLF] set, the bytes
    that go out are the bytes that came in with their newlines normalised,
    the very bytes when the text has no CR and no LF. *)
Theorem utf8_text_echo (b : Buffer) (s : Socket)
  (Hs : bufs s = []) (Hc : convertLF s = true) (Hv : UTF8.valid b = true) :
  iac_free b = true
  /\ on_data b s = (Return tt, after_data b s)
  /\ fst ((on_data b ;; write (JBuffer b)) s) = Return tt
  /\ outbound_bytes (snd ((on_data b ;; write (JBuffer b)) s)) =
     outbound_bytes s ++ normalize_newlines b
  /\ (Forall (fun x => x <> CR /\ x <> LF) b ->
      outbound_bytes (snd ((on_data b ;; write (JBuffer b)) s)) =
      outbound_bytes s ++ b).
Proof.
  assert (Hi : iac_free b = true)
    by exact (well_formed_iac_free _ _ Hv).
  assert (Hc' : convertLF (after_data b s) = true)
    by (destruct b; exact Hc).
  assert (Ho : outbound_bytes (after_data b s) = outbound_bytes s).
  { destruct b; [reflexivity|]. cbn [after_data].
    rewrite outbound_bytes_grow. cbn [flat_map]. apply app_nil_r. }
  assert (W : outbound_bytes (snd ((on_data b ;; write (JBuffer b)) s)) =
              outbound_bytes s ++ replace_newlines b).
  { unfold bind. rewrite (on_data_literal b s Hs Hi).
    rewrite (write_run (JBuffer b) _ Hc'). cbn [snd toString_utf8].
    rewrite outbound_bytes_grow, Ho. cbn [flat_map wire_bytes].
    rewrite app_nil_r.
    rewrite (encode_replace _ _ (le_n _)).
    unfold UTF8.valid in Hv. rewrite (encode_decode _ _ Hv). reflexivity. }
  split; [exact Hi|].
  split; [exact (on_data_literal b s Hs Hi)|].
  split.
  { unfold bind. rewrite (on_data_literal b s Hs Hi).
    rewrite (write_run (JBuffer b) _ Hc'). reflexivity. }
  split.
  - rewrite W, replace_is_normalize. reflexivity.
  - intros Hb. rewrite W. f_equal.
    rewrite <- (app_nil_r b) at 1. rewrite (replace_no_newline b [] Hb).
    cbn [replace_newlines]. apply app_nil_r.
Qed.

Lemma utf8_text_echo_witness :
  outbound_bytes (snd ((on_data [104; 195; 169; LF] ;; write (JBuffer [104; 195; 169; LF]))
                         new_Socket)) =
  outbound_bytes new_Socket ++ normalize_newlines [104; 195; 169; LF].
Proof.
  apply (utf8_text_echo [104; 195; 169; LF] new_Socket); reflexivity.
Defined.

(** ** The command builder *)

(** X16.  A frame made by the command builder is read back by the parser as
    the event it stands for.  For every command name of ASCII characters
    whose upper-case form [COMMANDS] has, and every method of
    [Command.prototype], the call writes one three-byte [Buffer] [IAC c o],
    with [c] the code of the command and [o] the code of the option the
    method is named after, and touches nothing else; for a negotiation
    command the parser takes these three bytes for the event of [c] and [o]
    and leaves nothing behind, except for the method [timing_mark], whose
    frame makes the parser throw a [TypeError]. *)
Theorem command_builder_round_trip
  (command upper method : string) (c o : Z) (s : Socket)
  (Hu : toUpperCase command = Some upper)
  (Hc : lookup_name upper COMMANDS = Some c)
  (Hm : lookup_name method Command_prototype = Some o) :
  exists cmd call,
    new_Command command = Some cmd
    /\ Command_call cmd method = Some call
    /\ call s = (Return tt, grow s [JBuffer [IAC; c; o]] [])
    /\ (negotiation_command c = true ->
        parse [IAC; c; o] =
        if o =? TIMING_MARK then (Throw TypeError, [IAC; c; o])
        else (Return (Parsed (negotiation_event c o)), [])).
Proof.
  exists (mkCommand (Some c)), (Command_method (mkCommand (Some c)) o).
  split; [unfold new_Command; rewrite Hu; cbn [option_map]; rewrite Hc; reflexivity|].
  split; [unfold Command_call; rewrite Hm; reflexivity|].
  split; [destruct s; reflexivity|].
  intros Hn.
  assert (Hcmd : lookup c COMMAND_IMPLS = Some Impl_option /\ c <> SB)
    by (each_command Hn; split; (reflexivity || discriminate)).
  destruct Hcmd as [Hcmd Hsb].
  unfold Command_prototype in Hm. cbn [lookup_name] in Hm.
  repeat match type of Hm with
         | (if ?b then _ else _) = _ => destruct b
         end;
    try discriminate Hm; injection Hm as <-;
    first [ apply parse_unknown_option; [exact Hcmd|reflexivity]
          | apply parse_no_args; [exact Hcmd|reflexivity]
          | apply parse_window_size_other; [exact Hcmd|reflexivity|exact Hsb] ].
Qed.

Lemma command_builder_round_trip_witness :
  exists cmd call,
    new_Command "Will" = Some cmd
    /\ Command_call cmd "echo" = Some call
    /\ call new_Socket = (Return tt, grow new_Socket [JBuffer [IAC; WILL; ECHO]] [])
    /\ (negotiation_command WILL = true ->
        parse [IAC; WILL; ECHO] =
        if ECHO =? TIMING_MARK then (Throw TypeError, [IAC; WILL; ECHO])
        else (Return (Parsed (negotiation_event WILL ECHO)), [])).
Proof.
  apply (command_builder_round_trip "Will" "WILL" "echo" WILL ECHO new_Socket);
    reflexivity.
Defined.

(** ** Requests before a listener is attached *)

Lemma run_paused tr :
  forall s, t_paused (input s) = true ->
  forallb (fun a => match a with
                    | Attach event => negb (String.eqb event "data")
                    | _ => true
                    end) tr = true ->
  run tr s =
  (Return tt, set_input (mkTransport true (t_queue (input s) ++ arrivals tr)) s).
Proof.
  induction tr as [|a tr IH]; intros s Hp Htr.
  - cbn [run arrivals flat_map]. rewrite app_nil_r.
    destruct s as [b c [p q] w em n]. cbn in Hp. subst p. reflexivity.
  - cbn [forallb] in Htr. apply andb_true_iff in Htr as [Ha Htr].
    cbn [run]. unfold bind.
    destruct a as [b|event|].
    + cbn [step]. unfold arrive, modify.
      rewrite IH by (exact Htr || (destruct s; exact Hp)).
      destruct s as [b0 c [p q] w em n]. cbn in Hp. subst p.
      cbn [input t_queue t_paused set_input]. unfold arrivals.
      cbn [flat_map]. fold (arrivals tr). rewrite <- app_assoc. reflexivity.
    + cbn [step]. rewrite on_run.
      destruct (String.eqb event "data"); [discriminate Ha|].
      rewrite IH by assumption. reflexivity.
    + cbn [step]. unfold deliver, bind, gets. rewrite Hp.
      unfold ret. rewrite IH by assumption. reflexivity.
Qed.

(** X17.  Requests wait for a listener too.  As long as no ['data'] listener
    is attached the handler does not run, whatever arrives, negotiation
    requests included: after every run without such an attachment the session
    is the new one with the arrived chunks held by the transport, so nothing
    was written, emitted or parsed.  Once the listener is attached, the next
    delivery hands the oldest chunk to the handler. *)
Theorem replies_wait_for_listener (tr : list action) (b : Buffer) (q : list Buffer)
  (Htr : forallb (fun a => match a with
                           | Attach event => negb (String.eqb event "data")
                           | _ => true
                           end) tr = true)
  (Ha : arrivals tr = b :: q) :
  run tr new_Socket =
    (Return tt, set_input (mkTransport true (b :: q)) new_Socket)
  /\ written (snd (run tr new_Socket)) = []
  /\ emissions (snd (run tr new_Socket)) = []
  /\ run (tr ++ [Attach "data"; Deliver]) new_Socket =
     on_data b (mkSocket [] true (mkTransport false q) [] [] 1).
Proof.
  assert (R : run tr new_Socket =
              (Return tt, set_input (mkTransport true (b :: q)) new_Socket)).
  { rewrite (run_paused tr new_Socket eq_refl Htr), Ha. reflexivity. }
  split; [exact R|].
  rewrite run_app, R. cbn [snd].
  split; [reflexivity|]. split; [reflexivity|].
  cbn [run step]. unfold bind at 1. rewrite on_run.
  change (String.eqb "data" "data") with true. cbv iota.
  unfold bind at 1, deliver, bind at 1, gets.
  cbn [input set_input add_data_listener new_Socket t_paused t_queue].
  unfold bind at 1, modify.
  cbn [input set_input add_data_listener new_Socket t_paused t_queue bufs
       convertLF output_written emitted data_listeners].
  unfold bind.
  change (set_input _ (add_data_listener _))
    with (mkSocket [] true (mkTransport false q) [] [] 1).
  destruct (on_data b (mkSocket [] true (mkTransport false q) [] [] 1))
    as [[[]|e] s1]; reflexivity.
Qed.

Lemma replies_wait_for_listener_witness :
  written (snd (run [Arrive [IAC; DO; ECHO]; Deliver; Attach "end"; Deliver]
                    new_Socket)) = [].
Proof.
  apply (replies_wait_for_listener
           [Arrive [IAC; DO; ECHO]; Deliver; Attach "end"; Deliver]
           [IAC; DO; ECHO] []); reflexivity.
Defined.
